(** * qdb: the generic repository over a gorm session

    A shallow embedding of [database.go] (package [qdb]): the connection
    factory [NewDb], the schema step of [NewDao] and the CRUD surface of
    [Dao[T]].  The Go code is written against three outside libraries,
    gorm (the session and its statements), qreflect (a name-keyed field
    accessor) and the standard library ([strings.Split], [time.Now],
    [errors.New]); each of them is given a small executable reference
    model here, and the functions of the package are transcribed on top
    of these models, statement by statement. *)

From stdpp Require Import base strings list gmap.
From Stdlib Require Import ZArith Lia Ascii.

Set Default Proof Using "Type".
Local Open Scope string_scope.
Local Open Scope list_scope.
Local Open Scope Z_scope.

(** ** Go values shared by the whole package *)

(** The [error] values that reach this package.  [errors.New] allocates a
    fresh value on every call, so an error made here is never equal to one
    handed back by a library. *)
Inductive error :=
| LibError (msg : string)
| ErrorsNew (msg : string).

#[global] Instance error_eq_dec : EqDecision error.
Proof. solve_decision. Defined.

(** A run-time panic: [panic(err)], a nil dereference, or an index
    expression out of range. *)
Inductive panic :=
| PanicError (e : error)
| NilDereference
| IndexOutOfRange (index len : nat).

#[global] Instance panic_eq_dec : EqDecision panic.
Proof. solve_decision. Defined.

(** A Go slice is either nil or a (possibly empty) run of elements. *)
Inductive slice (A : Type) :=
| nil_slice
| Slice (elems : list A).
Arguments nil_slice {A}.
Arguments Slice {A} elems.

Definition make_slice {A : Type} : slice A := Slice [].

Definition slice_elems {A : Type} (s : slice A) : list A :=
  match s with
  | nil_slice => []
  | Slice l => l
  end.

(** [qtime.DateTime] is only ever observed through its textual form
    "YYYY-MM-DD hh:mm:ss"; that text is the value carried here. *)
Definition DateTime := string.

(** [gorm.DB.Error] and [gorm.DB.RowsAffected] after a call. *)
Record Result := { Error : option error; RowsAffected : Z }.

Definition failed (e : error) : Result := {| Error := Some e; RowsAffected := 0 |}.
Definition affected (n : Z) : Result := {| Error := None; RowsAffected := n |}.

(** The gorm calls this package makes, as they appear in the session log. *)
Inductive Call :=
| CallAutoMigrate
| CallCreate
| CallUpdates
| CallSave
| CallDelete
| CallFind.

Inductive Event :=
| Probe (name : string) (present : bool)
| Begin
| Commit
| Rollback
| Exec (c : Call) (r : Result).


(** ** The entity contract *)

(** What the repository needs from an entity type [T]: its type name, its
    zero value, the primary key [Id], the audit field [LastTime], and the
    row that results when gorm's [Updates] writes the non-zero fields of a
    model over a stored row. *)
Class Entity (T : Type) := {
  TypeName : string;
  new : T;
  Id : T → Z;
  with_Id : Z → T → T;
  LastTime : T → DateTime;
  with_LastTime : DateTime → T → T;
  updates : T → T → T;
}.

Definition zero_DateTime : DateTime := "0001-01-01 00:00:00".

Definition pick_text (new_text old_text : string) : string :=
  if String.eqb new_text "" then old_text else new_text.

Definition pick_time (new_time old_time : DateTime) : DateTime :=
  if String.eqb new_time zero_DateTime then old_time else new_time.

Module DbSimple.
Record t := { Id : Z; LastTime : DateTime }.
End DbSimple.

Module DbFull.
Record t := { Id : Z; LastTime : DateTime; Summary : string; FullInfo : string }.
End DbFull.

#[global] Instance DbSimple_Entity : Entity DbSimple.t := {|
  TypeName := "DbSimple";
  new := {| DbSimple.Id := 0; DbSimple.LastTime := zero_DateTime |};
  Id := DbSimple.Id;
  with_Id := λ i m, {| DbSimple.Id := i; DbSimple.LastTime := DbSimple.LastTime m |};
  LastTime := DbSimple.LastTime;
  with_LastTime := λ t m, {| DbSimple.Id := DbSimple.Id m; DbSimple.LastTime := t |};
  updates := λ m row,
    {| DbSimple.Id := DbSimple.Id row;
       DbSimple.LastTime := pick_time (DbSimple.LastTime m) (DbSimple.LastTime row) |};
|}.

#[global] Instance DbFull_Entity : Entity DbFull.t := {|
  TypeName := "DbFull";
  new := {| DbFull.Id := 0; DbFull.LastTime := zero_DateTime;
            DbFull.Summary := ""; DbFull.FullInfo := "" |};
  Id := DbFull.Id;
  with_Id := λ i m,
    {| DbFull.Id := i; DbFull.LastTime := DbFull.LastTime m;
       DbFull.Summary := DbFull.Summary m; DbFull.FullInfo := DbFull.FullInfo m |};
  LastTime := DbFull.LastTime;
  with_LastTime := λ t m,
    {| DbFull.Id := DbFull.Id m; DbFull.LastTime := t;
       DbFull.Summary := DbFull.Summary m; DbFull.FullInfo := DbFull.FullInfo m |};
  updates := λ m row,
    {| DbFull.Id := DbFull.Id row;
       DbFull.LastTime := pick_time (DbFull.LastTime m) (DbFull.LastTime row);
       DbFull.Summary := pick_text (DbFull.Summary m) (DbFull.Summary row);
       DbFull.FullInfo := pick_text (DbFull.FullInfo m) (DbFull.FullInfo row) |};
|}.

(** ** The world the repository runs in *)

(** The database behind a gorm session, for one entity type: the tables
    with their rows in storage order, each under the name of its entity
    type; the naming strategy the session was opened with
    ([gorm.Config.NamingStrategy], which every handle on it shares), that
    is, the name a table of a given entity type carries in the database;
    the failures about to be reported, one entry per step that can fail (a
    statement sent to the engine, the existence probe, and what gorm runs
    after an update statement), with the message of the failure or [None]
    for a step that goes through; and the log of the calls made so far. *)
Record Session (T : Type) := {
  tables : gmap string (list T);
  faults : list (option string);
  trace : list Event;
  TableName : string → string;
}.
Arguments tables {T} _.
Arguments faults {T} _.
Arguments trace {T} _.
Arguments TableName {T} _ _.

(** The heap of entity objects reachable through [*T] pointers (a pointer
    is an index into it), the session, and the reading of the clock. *)
Record World (T : Type) := {
  heap : list T;
  session : Session T;
  now : DateTime;
}.
Arguments heap {T} _.
Arguments session {T} _.
Arguments now {T} _.

Inductive outcome (S A : Type) :=
| Done (a : A) (s : S)
| Panicked (p : panic) (s : S).
Arguments Done {S A} a s.
Arguments Panicked {S A} p s.

Definition ptr := nat.

(** *** A state monad with panics

    A computation reads and updates a state and either finishes with a
    value or panics; a panic cuts the rest of the computation short. *)

Definition Run (S A : Type) : Type := S → outcome S A.

Definition ret {S A : Type} (a : A) : Run S A := λ s, Done a s.

Definition bind {S A B : Type} (c : Run S A) (k : A → Run S B) : Run S B :=
  λ s, match c s with
       | Done a s' => k a s'
       | Panicked p s' => Panicked p s'
       end.

Definition throw {S A : Type} (p : panic) : Run S A := λ s, Panicked p s.

Notation "'let!' x ':=' c 'in' k" := (bind c (λ x, k))
  (at level 10, x pattern, c at level 100, k at level 200).


Section Repository.
Context {T : Type} `{!Entity T}.

Definition set_tables (tb : gmap string (list T)) (s : Session T) : Session T :=
  {| tables := tb; faults := faults s; trace := trace s; TableName := TableName s |}.

Definition set_faults (fs : list (option string)) (s : Session T) : Session T :=
  {| tables := tables s; faults := fs; trace := trace s; TableName := TableName s |}.

Definition log (ev : Event) (s : Session T) : Session T :=
  {| tables := tables s; faults := faults s; trace := trace s ++ [ev];
     TableName := TableName s |}.

Definition set_heap (h : list T) (w : World T) : World T :=
  {| heap := h; session := session w; now := now w |}.

Definition set_session (s : Session T) (w : World T) : World T :=
  {| heap := heap w; session := s; now := now w |}.

Abbreviation M := (Run (World T)).

Definition alloc (v : T) : M ptr :=
  λ w, Done (length (heap w)) (set_heap (heap w ++ [v]) w).

Definition load (p : ptr) : M T :=
  λ w, match heap w !! p with
       | Some v => Done v w
       | None => Panicked NilDereference w
       end.

Definition store (p : ptr) (v : T) : M unit :=
  λ w, match heap w !! p with
       | Some _ => Done tt (set_heap (<[p := v]> (heap w)) w)
       | None => Panicked NilDereference w
       end.

Definition on_session {A : Type} (f : Session T → A * Session T) : M A :=
  λ w, let '(a, s) := f (session w) in Done a (set_session s w).

Definition record (ev : Event) : M unit :=
  on_session (λ s, (tt, log ev s)).

(** A gorm call ends by leaving its result in the log. *)
Definition finish (c : Call) (r : Result) : M Result :=
  let! _ := record (Exec c r) in ret r.

Definition time_Now : M DateTime := λ w, Done (now w) w.

Definition qtime_NewDateTime (t : DateTime) : DateTime := t.

(** *** qreflect *)

(** The argument of [qreflect.New(object any)]: converting a [*T] to
    [any] keeps the pointer, converting a [T] boxes a copy of the struct. *)
Inductive any :=
| AnyPtr (p : ptr)
| AnyVal (v : T).

Record Reflect := { object : any }.

Definition qreflect_New (obj : any) : Reflect := {| object := obj |}.

(** [ref.Get(field)]: the field as text.  The package only ever names
    "LastTime". *)
Definition qreflect_Get (ref : Reflect) (field : string) : M string :=
  let! v := match object ref with
            | AnyPtr p => load p
            | AnyVal v => ret v
            end in
  ret (if String.eqb field "LastTime" then LastTime v else "").

(** [ref.Set(field, value)]: through a pointer the pointee is updated in
    place; a boxed copy is not addressable, the call reports an error and
    no variable of the caller changes. *)
Definition qreflect_Set (ref : Reflect) (field : string) (value : DateTime) : M (option error) :=
  match object ref with
  | AnyPtr p =>
    if String.eqb field "LastTime"
    then let! v := load p in
         let! _ := store p (with_LastTime value v) in
         ret None
    else ret (Some (LibError "no such field"))
  | AnyVal _ => ret (Some (LibError "value is not addressable"))
  end.

(** *** gorm *)

(** A [*gorm.DB] handle: whether it is bound to a transaction, and the
    clauses chained on it so far. *)
Record gorm_DB := {
  in_tx : bool;
  where_ : option (T → bool);
  limit : option Z;
  offset : option Z;
}.

Definition open_DB : gorm_DB :=
  {| in_tx := false; where_ := None; limit := None; offset := None |}.

(** [db.Where(query, args...)]: the condition with its arguments bound,
    as a predicate on rows; conditions chain with AND. *)
Definition Where (db : gorm_DB) (query : T → bool) : gorm_DB :=
  {| in_tx := in_tx db;
     where_ := Some (match where_ db with
                     | None => query
                     | Some q => λ r, q r && query r
                     end);
     limit := limit db; offset := offset db |}.

Definition Limit (db : gorm_DB) (n : Z) : gorm_DB :=
  {| in_tx := in_tx db; where_ := where_ db; limit := Some n; offset := offset db |}.

Definition Offset (db : gorm_DB) (n : Z) : gorm_DB :=
  {| in_tx := in_tx db; where_ := where_ db; limit := limit db; offset := Some n |}.

(** [db.Model(value)] names the table to work on; there is one per [T]. *)
Definition Model (db : gorm_DB) (value : ptr) : gorm_DB := db.

Definition begin_tx (db : gorm_DB) : gorm_DB :=
  {| in_tx := true; where_ := where_ db; limit := limit db; offset := offset db |}.

Definition ErrMissingWhereClause : error := LibError "WHERE conditions required".

Definition next_fault (s : Session T) : option error * Session T :=
  match faults s with
  | [] => (None, s)
  | f :: fs => (LibError <$> f, set_faults fs s)
  end.

(** One statement sent to the engine against the table of [T]: it fails
    if the engine reports a failure, if the table is missing, or if the
    statement itself is rejected; otherwise the table is replaced and the
    count of affected rows comes back with the statement's answer. *)
Definition statement {A : Type} (run : list T → error + (list T * Z * A))
    (s : Session T) : (error + (Z * A)) * Session T :=
  match next_fault s with
  | (Some e, s') => (inl e, s')
  | (None, s') =>
    match tables s' !! TypeName with
    | None => (inl (LibError "no such table"), s')
    | Some rows =>
      match run rows with
      | inl e => (inl e, s')
      | inr (rows', n, a) => (inr (n, a), set_tables (<[TypeName := rows']> (tables s')) s')
      end
    end
  end.

Definition has_Id (id : Z) (r : T) : bool := Id r =? id.

Definition count_rows (cond : T → bool) (rows : list T) : Z :=
  Z.of_nat (length (List.filter cond rows)).

Definition next_Id (rows : list T) : Z :=
  1 + foldr (λ r acc, Z.max (Id r) acc) 0 rows.

(** The row an INSERT of [m] stores: a zero primary key asks the engine
    for the next one. *)
Definition inserted (m : T) (rows : list T) : T :=
  if Id m =? 0 then with_Id (next_Id rows) m else m.

(** INSERT: a key already stored violates the primary-key constraint. *)
Definition insert_row (m : T) (rows : list T) : error + (list T * Z * T) :=
  let row := inserted m rows in
  if existsb (has_Id (Id row)) rows
  then inl (LibError "UNIQUE constraint failed")
  else inr (rows ++ [row], 1, row).

Definition updated (m : T) (rows : list T) : list T :=
  map (λ r, if has_Id (Id m) r then updates m r else r) rows.

Definition replaced (m : T) (rows : list T) : list T :=
  map (λ r, if has_Id (Id m) r then m else r) rows.

(** UPDATE ... SET <non-zero fields of m> WHERE id = m.Id *)
Definition update_rows (m : T) (rows : list T) : error + (list T * Z * unit) :=
  inr (updated m rows, count_rows (has_Id (Id m)) rows, tt).

(** UPDATE ... SET <all fields of m> WHERE id = m.Id *)
Definition replace_rows (m : T) (rows : list T) : error + (list T * Z * unit) :=
  inr (replaced m rows, count_rows (has_Id (Id m)) rows, tt).

(** INSERT ... ON CONFLICT DO UPDATE SET <all fields> *)
Definition upsert_row (m : T) (rows : list T) : error + (list T * Z * unit) :=
  if existsb (has_Id (Id m)) rows
  then inr (replaced m rows, 1, tt)
  else inr (rows ++ [m], 1, tt).

(** DELETE ... WHERE cond *)
Definition delete_rows (cond : T → bool) (rows : list T) : error + (list T * Z * unit) :=
  inr (List.filter (λ r, negb (cond r)) rows, count_rows cond rows, tt).

Definition apply_offset (o : option Z) (rows : list T) : list T :=
  match o with
  | Some n => if 0 <? n then drop (Z.to_nat n) rows else rows
  | None => rows
  end.

Definition apply_limit (l : option Z) (rows : list T) : list T :=
  match l with
  | Some n => if 0 <=? n then take (Z.to_nat n) rows else rows
  | None => rows
  end.

Definition matching (db : gorm_DB) (rows : list T) : list T :=
  match where_ db with
  | Some q => List.filter q rows
  | None => rows
  end.

(** SELECT * ... WHERE ... LIMIT ... OFFSET ... *)
Definition select_rows (db : gorm_DB) (rows : list T) : error + (list T * Z * list T) :=
  inr (rows, 0, apply_limit (limit db) (apply_offset (offset db) (matching db rows))).

(** Some table carries the name [name] in the database. *)
Definition table_named (s : Session T) (name : string) : bool :=
  existsb (λ entry, String.eqb (TableName s entry.1) name) (map_to_list (tables s)).

(** The query behind the probe: a failure of it is swallowed and reads as
    "no such table". *)
Definition probe (name : string) (s : Session T) : bool * Session T :=
  match next_fault s with
  | (Some _, s') => (false, s')
  | (None, s') => (table_named s' name, s')
  end.

(** [db.Migrator().HasTable(name)] with a string: the engine is asked for
    a table of literally that name. *)
Definition Migrator_HasTable (db : gorm_DB) (name : string) : M bool :=
  let! present := on_session (probe name) in
  let! _ := record (Probe name present) in
  ret present.

(** [db.AutoMigrate(m)]: creates the table of [T], under the name the
    naming strategy gives it, when [T] has no table yet; a table that is
    there keeps its rows. *)
Definition create_table (s : Session T) : option error * Session T :=
  match next_fault s with
  | (Some e, s') => (Some e, s')
  | (None, s') =>
    match tables s' !! TypeName with
    | Some _ => (None, s')
    | None => (None, set_tables (<[TypeName := []]> (tables s')) s')
    end
  end.

Definition gorm_AutoMigrate (db : gorm_DB) (m : ptr) : M (option error) :=
  let! _ := load m in
  let! err := on_session create_table in
  let! r := finish CallAutoMigrate {| Error := err; RowsAffected := 0 |} in
  ret (Error r).

(** [db.Create(value)]: the row as stored (with the key the engine chose)
    is written back into [*value]. *)
Definition create_as (c : Call) (value : ptr) : M Result :=
  let! m := load value in
  let! out := on_session (statement (insert_row m)) in
  match out with
  | inl e => finish c (failed e)
  | inr (n, row) => let! _ := store value row in finish c (affected n)
  end.

Definition gorm_Create (db : gorm_DB) (value : ptr) : M Result :=
  create_as CallCreate value.

(** What gorm runs after an update statement that went through: the
    after-update hooks of the entity and the commit of the default
    transaction around the statement.  When that fails the statement is
    undone, and the error joins a result that already counts the rows. *)
Definition settle (before : gmap string (list T)) (s : Session T)
    : option error * Session T :=
  match next_fault s with
  | (Some e, s') => (Some e, set_tables before s')
  | (None, s') => (None, s')
  end.

(** [db.Updates(value)] with a struct: only its non-zero fields are
    written, to the row with the struct's primary key; without a key there
    is no WHERE clause and gorm refuses the statement. *)
Definition gorm_Updates (db : gorm_DB) (value : ptr) : M Result :=
  let! m := load value in
  if Id m =? 0 then finish CallUpdates (failed ErrMissingWhereClause)
  else
    let! before := on_session (λ s, (tables s, s)) in
    let! out := on_session (statement (update_rows m)) in
    match out with
    | inl e => finish CallUpdates (failed e)
    | inr (n, _) =>
      let! late := on_session (settle before) in
      finish CallUpdates {| Error := late; RowsAffected := n |}
    end.

(** [db.Save(value)]: an insert when the primary key is zero; otherwise an
    update of all fields and, when that matched no row, an insert that
    overwrites on conflict. *)
Definition gorm_Save (db : gorm_DB) (value : ptr) : M Result :=
  let! m := load value in
  if Id m =? 0 then create_as CallSave value
  else
    let! out := on_session (statement (replace_rows m)) in
    match out with
    | inl e => finish CallSave (failed e)
    | inr (n, _) =>
      if n =? 0
      then let! out2 := on_session (statement (upsert_row m)) in
           match out2 with
           | inl e => finish CallSave (failed e)
           | inr (n2, _) => finish CallSave (affected n2)
           end
      else finish CallSave (affected n)
    end.

(** [db.Delete(value)] with the conditions chained on [db]; [value] is the
    zero entity here and adds no condition of its own. *)
Definition gorm_Delete (db : gorm_DB) (value : ptr) : M Result :=
  let! _ := load value in
  match where_ db with
  | None => finish CallDelete (failed ErrMissingWhereClause)
  | Some cond =>
    let! out := on_session (statement (delete_rows cond)) in
    match out with
    | inl e => finish CallDelete (failed e)
    | inr (n, _) => finish CallDelete (affected n)
    end
  end.

(** [db.Find(dest)] with [dest : *T]: the first selected row, if any, is
    scanned into [*dest]. *)
Definition gorm_Find (db : gorm_DB) (dest : ptr) : M Result :=
  let! _ := load dest in
  let! out := on_session (statement (select_rows db)) in
  match out with
  | inl e => finish CallFind (failed e)
  | inr (_, []) => finish CallFind (affected 0)
  | inr (_, row :: _) => let! _ := store dest row in finish CallFind (affected 1)
  end.

(** [db.Find(&list)] with [list : []T]: on success the variable holds the
    selected rows (an empty, non-nil slice when there are none); on
    failure it is left as it was. *)
Definition gorm_Find_slice (db : gorm_DB) (dest : slice T) : M (Result * slice T) :=
  let! out := on_session (statement (select_rows db)) in
  match out with
  | inl e => let! r := finish CallFind (failed e) in ret (r, dest)
  | inr (_, found) =>
    let! r := finish CallFind (affected (Z.of_nat (length found))) in
    ret (r, Slice found)
  end.

Fixpoint alloc_all (rows : list T) : M (list ptr) :=
  match rows with
  | [] => ret []
  | row :: rest =>
    let! p := alloc row in
    let! ps := alloc_all rest in
    ret (p :: ps)
  end.

(** [db.Find(&list)] with [list : []*T]: each selected row is a fresh
    object. *)
Definition gorm_Find_ptrs (db : gorm_DB) (dest : slice ptr) : M (Result * slice ptr) :=
  let! out := on_session (statement (select_rows db)) in
  match out with
  | inl e => let! r := finish CallFind (failed e) in ret (r, dest)
  | inr (_, found) =>
    let! ps := alloc_all found in
    let! r := finish CallFind (affected (Z.of_nat (length found))) in
    ret (r, Slice ps)
  end.

(** [db.Transaction(fc)]: [fc] runs on a handle bound to a new
    transaction; an error (or a panic) from it rolls the tables back to
    where they were, otherwise the transaction is committed. *)
Definition gorm_Transaction (db : gorm_DB) (fc : gorm_DB → M (option error)) : M (option error) :=
  λ w, let saved := tables (session w) in
       match (let! _ := record Begin in fc (begin_tx db)) w with
       | Done None w' =>
         Done None (set_session (log Commit (session w')) w')
       | Done (Some e) w' =>
         Done (Some e) (set_session (log Rollback (set_tables saved (session w'))) w')
       | Panicked p w' =>
         Panicked p (set_session (log Rollback (set_tables saved (session w'))) w')
       end.

(** [for _, model := range list { ... return err ... }; return nil] *)
Fixpoint range_loop (list : list T) (body : T → M (option error)) : M (option error) :=
  match list with
  | [] => ret None
  | elem :: rest =>
    let! err := body elem in
    match err with
    | Some e => ret (Some e)
    | None => range_loop rest body
    end
  end.

(** Go's conversion [int(x)] of a [uint64] on a 64-bit platform. *)
Definition int_of_uint64 (x : Z) : Z :=
  let y := x mod 2 ^ 64 in
  if y <? 2 ^ 63 then y else y - 2 ^ 64.

(** ** The repository *)

Record Dao := { db : gorm_DB }.

(** [NewDao] *)
Definition NewDao (db : gorm_DB) : M (option Dao) :=
  let! m := alloc new in
  let name := TypeName in
  let! present := Migrator_HasTable db name in
  if bool_decide (present = false)
  then let! err := gorm_AutoMigrate db m in
       match err with
       | Some _ => ret None
       | None => ret (Some {| db := db |})
       end
  else ret (Some {| db := db |}).

Definition DB (dao : Dao) : gorm_DB := db dao.

(** The opening of every write path:
    [if ref.Get("LastTime") == "0001-01-01 00:00:00" {
       _ = ref.Set("LastTime", qtime.NewDateTime(time.Now())) }] *)
Definition stamp (ref : Reflect) : M unit :=
  let! text := qreflect_Get ref "LastTime" in
  if String.eqb text "0001-01-01 00:00:00"
  then let! t := time_Now in
       let! _ := qreflect_Set ref "LastTime" (qtime_NewDateTime t) in
       ret tt
  else ret tt.

Definition Create (dao : Dao) (model : ptr) : M (option error) :=
  let ref := qreflect_New (AnyPtr model) in
  let! _ := stamp ref in
  let! result := gorm_Create (DB dao) model in
  ret (Error result).

(** In the three batch operations the loop variable [model] is a [T]:
    [qreflect.New(model)] receives a copy of it, while the statement is
    given [&model]. *)
Definition CreateList (dao : Dao) (list : list T) : M (option error) :=
  let! err := gorm_Transaction (DB dao) (λ tx,
    range_loop list (λ elem,
      let! model := alloc elem in
      let! copy := load model in
      let ref := qreflect_New (AnyVal copy) in
      let! _ := stamp ref in
      let! result := gorm_Create tx model in
      ret (Error result))) in
  ret err.

Definition Update (dao : Dao) (model : ptr) : M (option error) :=
  let ref := qreflect_New (AnyPtr model) in
  let! _ := stamp ref in
  let! result := gorm_Updates (Model (DB dao) model) model in
  if 0 <? RowsAffected result then ret None
  else match Error result with
       | Some e => ret (Some e)
       | None => ret (Some (ErrorsNew "update record does not exist"))
       end.

Definition UpdateList (dao : Dao) (list : list T) : M (option error) :=
  let! err := gorm_Transaction (DB dao) (λ tx,
    range_loop list (λ elem,
      let! model := alloc elem in
      let! copy := load model in
      let ref := qreflect_New (AnyVal copy) in
      let! _ := stamp ref in
      let! result := gorm_Updates tx model in
      ret (Error result))) in
  ret err.

Definition Save (dao : Dao) (model : ptr) : M (option error) :=
  let ref := qreflect_New (AnyPtr model) in
  let! _ := stamp ref in
  let! result := gorm_Save (DB dao) model in
  ret (Error result).

Definition SaveList (dao : Dao) (list : list T) : M (option error) :=
  let! err := gorm_Transaction (DB dao) (λ tx,
    range_loop list (λ elem,
      let! model := alloc elem in
      let! copy := load model in
      let ref := qreflect_New (AnyVal copy) in
      let! _ := stamp ref in
      let! result := gorm_Save tx model in
      ret (Error result))) in
  ret err.

Definition Delete (dao : Dao) (id : Z) : M (option error) :=
  let! zero := alloc new in
  let! result := gorm_Delete (Where (DB dao) (has_Id id)) zero in
  ret (Error result).

Definition is_failure (result : Result) : bool :=
  match Error result with
  | Some _ => true
  | None => false
  end.

Definition GetModel (dao : Dao) (id : Z) : M (option ptr * option error) :=
  let! model := alloc new in
  let! result := gorm_Find (Where (DB dao) (has_Id id)) model in
  if is_failure result || (RowsAffected result =? 0)
  then ret (None, Error result)
  else ret (Some model, None).

Definition GetList (dao : Dao) (startId : Z) (maxCount : Z) : M (slice T * option error) :=
  let list := make_slice in
  let! (result, list) :=
    gorm_Find_slice (Offset (Limit (DB dao) maxCount) (int_of_uint64 startId)) list in
  if is_failure result || (RowsAffected result =? 0)
  then ret (list, Error result)
  else ret (list, None).

Definition GetAll (dao : Dao) : M (slice T * option error) :=
  let list := make_slice in
  let! (result, list) := gorm_Find_slice (DB dao) list in
  if is_failure result || (RowsAffected result =? 0)
  then ret (list, Error result)
  else ret (list, None).

Definition GetConditions (dao : Dao) (query : T → bool) : M (slice T * option error) :=
  let list := make_slice in
  let! (result, list) := gorm_Find_slice (Where (DB dao) query) list in
  if is_failure result || (RowsAffected result =? 0)
  then ret (list, Error result)
  else ret (list, None).

Definition GetConditionsLimit (dao : Dao) (maxCount : Z) (query : T → bool)
    : M (slice ptr * option error) :=
  let list := make_slice in
  if 0 <? maxCount
  then
    let! (result, list) := gorm_Find_ptrs (Limit (Where (DB dao) query) maxCount) list in
    if is_failure result || (RowsAffected result =? 0)
    then ret (list, Error result)
    else ret (list, None)
  else
    let! (result, list) := gorm_Find_ptrs (Where (DB dao) query) list in
    if is_failure result || (RowsAffected result =? 0)
    then ret (list, Error result)
    else ret (list, None).

(** *** What a batch leaves in the table

    The table after one successful per-element call, as a function of the
    table before it; these are the vocabulary of the statements about
    batches. *)

Definition created (m : T) (rows : list T) : list T :=
  rows ++ [inserted m rows].

Definition saved (m : T) (rows : list T) : list T :=
  if Id m =? 0 then created m rows
  else if existsb (has_Id (Id m)) rows then replaced m rows
  else rows ++ [m].



(** The engine reports no failure for the next statement. *)
Definition quiet (s : Session T) : bool :=
  match faults s with
  | Some _ :: _ => false
  | _ => true
  end.

(** A handle with no clause chained on it, as [NewDao] receives it. *)
Definition unscoped (d : gorm_DB) : Prop :=
  where_ d = None ∧ limit d = None ∧ offset d = None.


(** A result as a library hands it back: its error, if any, is an error
    of a library. *)
Definition from_library (r : Result) : Prop :=
  ∀ e, Error r = Some e → ∃ msg, e = LibError msg.


Definition closing (err : option error) : Event :=
  match err with
  | None => Commit
  | Some _ => Rollback
  end.

(** What every write call of the model guarantees: it ends, leaves one
    entry in the log with a result as libraries make them, keeps the
    tables on failure and, on success, has applied [step] to the table of
    [T]. *)
Definition write_call (c : Call) (step : T → list T → list T) (f : ptr → M Result) : Prop :=
  ∀ p m w, heap w !! p = Some m →
    ∃ res w', f p w = Done res w' ∧
      trace (session w') = trace (session w) ++ [Exec c res] ∧
      from_library res ∧
      (∀ e, Error res = Some e → tables (session w') = tables (session w)) ∧
      (Error res = None →
       ∃ rows, tables (session w) !! TypeName = Some rows ∧
               tables (session w') = <[TypeName := step m rows]> (tables (session w))).

(** The shape the three batch operations share: the loop over the list,
    inside one transaction, around one gorm call per element.
    [CreateList], [UpdateList] and [SaveList] are this with [gorm_Create],
    [gorm_Updates] and [gorm_Save]. *)
Definition batch (call : gorm_DB → ptr → M Result) (dao : Dao) (list : list T)
    : M (option error) :=
  let! err := gorm_Transaction (DB dao) (λ tx,
    range_loop list (λ elem,
      let! model := alloc elem in
      let! copy := load model in
      let ref := qreflect_New (AnyVal copy) in
      let! _ := stamp ref in
      let! result := call tx model in
      ret (Error result))) in
  ret err.



(** The value [stamp] leaves behind a pointer to [m] at clock reading [t]. *)
Definition stamped (t : DateTime) (m : T) : T :=
  if String.eqb (LastTime m) zero_DateTime then with_LastTime t m else m.


End Repository.

(** ** The connection factory *)

(** [strings.Split(s, sep)] for a separator of one byte, which is what
    both call sites pass: the pieces of [s] between the occurrences of
    [sep], always at least one piece. *)
Fixpoint strings_Split (s : string) (sep : ascii) : list string :=
  match s with
  | EmptyString => [""]
  | String c rest =>
    if Ascii.eqb c sep then "" :: strings_Split rest sep
    else match strings_Split rest sep with
         | piece :: pieces => String c piece :: pieces
         | [] => [String c ""]
         end
  end.

(** The index expression [l[i]], which panics out of range. *)
Definition index {S A : Type} (l : list A) (i : nat) : Run S A :=
  match l !! i with
  | Some x => ret x
  | None => throw (IndexOutOfRange i (length l))
  end.

Module Factory.

Record config := {
  OpenLog : bool;
  SkipDefaultTransaction : bool;
  NoLowerCase : bool;
}.

Record setting := { Connect : string; Config : config }.

(** What [json.Marshal(cfg)] followed by [json.Unmarshal(js, &setting)]
    makes of a value found in the configuration store. *)
Inductive stored :=
| Decodes (s : setting)
| MarshalFails
| UnmarshalFails.

Inductive Dialect := sqlite | sqlserver | mysql | postgres.

Record gorm_Config := {
  SingularTable : bool;
  NamingNoLowerCase : bool;
  SkipDefaultTx : bool;
  LogModeInfo : bool;
}.

(** An open [*gorm.DB]. *)
Record Conn := { dialect : Dialect; dsn : string; gc : gorm_Config }.

(** What [NewDb] does to the outside, in order. *)
Inductive Effect :=
| TrySave (path : string)
| CreateDirectory (file : string)
| Open (d : Dialect) (dsn : string)
| ExecSQL (sql : string).

(** The surroundings of [NewDb]: the package variable [baseCfg] (the
    module name, description and version it reports), the configuration
    store behind [viper.Get], [qio.GetFullPath], and whether
    [qio.CreateDirectory] and [gorm.Open] fail. *)
Record Env := {
  baseCfg : option (string * string * string);
  viper_Get : string → option stored;
  GetFullPath : string → string;
  CreateDirectory_fails : string → option error;
  Open_fails : Dialect → string → option error;
}.

Abbreviation P := (Run (list Effect)).

Definition effect (e : Effect) : P unit := λ log, Done tt (log ++ [e]).

Definition zero_setting : setting :=
  {| Connect := "";
     Config := {| OpenLog := false; SkipDefaultTransaction := false; NoLowerCase := false |} |}.

Definition default_setting : setting :=
  {| Connect := "sqlite|./db/data.db&OFF";
     Config := {| OpenLog := false; SkipDefaultTransaction := true; NoLowerCase := true |} |}.

(** [js, err := json.Marshal(cfg); if err == nil { err =
    json.Unmarshal(js, &setting); if err != nil { return nil } }]: [None]
    stands for the early [return nil]. *)
Definition decode (v : stored) (s : setting) : option setting :=
  match v with
  | Decodes s' => Some s'
  | MarshalFails => Some s
  | UnmarshalFails => None
  end.

(** The first half of [NewDb]: where the setting comes from.  The text of
    the generated default block is not modelled, only that it is saved. *)
Definition load_setting (env : Env) (section : string) : P (option setting) :=
  match baseCfg env with
  | None =>
    throw (PanicError (ErrorsNew "base config not set, please call SetBaseConfig first"))
  | Some (moduleName, _, _) =>
    let setting := zero_setting in
    match viper_Get env (String.append moduleName (String.append "." section)) with
    | None =>
      match viper_Get env section with
      | None =>
        let setting := default_setting in
        let! _ := effect (TrySave "./config.yaml") in
        ret (Some setting)
      | Some cfg => ret (decode cfg setting)
      end
    | Some cfg => ret (decode cfg setting)
    end
  end.

(** [gorm.Open(dialector, &gc)] followed by [if err != nil { panic(err) }] *)
Definition gorm_Open (env : Env) (d : Dialect) (dsn : string) (gc : gorm_Config) : P Conn :=
  let! _ := effect (Open d dsn) in
  match Open_fails env d dsn with
  | Some err => throw (PanicError err)
  | None => ret {| dialect := d; dsn := dsn; gc := gc |}
  end.

(** The second half of [NewDb], from [gc := gorm.Config{...}] on. *)
Definition connect (env : Env) (setting : setting) : P Conn :=
  let gc := {| SingularTable := true;
               NamingNoLowerCase := NoLowerCase (Config setting);
               SkipDefaultTx := SkipDefaultTransaction (Config setting);
               LogModeInfo := OpenLog (Config setting) |} in
  let sp := strings_Split (Connect setting) "|" in
  let! kind := index sp 0 in
  let! db :=
    if String.eqb kind "sqlite" then
      let! param := index sp 1 in
      let spp := strings_Split param "&" in
      let! path := index spp 0 in
      let file := GetFullPath env path in
      let! _ := effect (CreateDirectory file) in
      match CreateDirectory_fails env file with
      | Some err => throw (PanicError err)
      | None =>
        let! db := gorm_Open env sqlite file gc in
        let! mode := index spp 1 in
        let! _ := (if negb (String.eqb mode "")
                   then effect (ExecSQL (String.append "PRAGMA journal_mode = "
                                           (String.append mode ";")))
                   else ret tt) in
        ret (Some db)
      end
    else if String.eqb kind "sqlserver" then
      let! param := index sp 1 in
      let dsn := String.append "sqlserver://" param in
      let! db := gorm_Open env sqlserver dsn gc in
      ret (Some db)
    else if String.eqb kind "mysql" then
      let! dsn := index sp 1 in
      let! db := gorm_Open env mysql dsn gc in
      ret (Some db)
    else if String.eqb kind "postgres" then
      let! dsn := index sp 1 in
      let! db := gorm_Open env postgres dsn gc in
      ret (Some db)
    else ret None in
  match db with
  | None => throw (PanicError (ErrorsNew "unknown db type"))
  | Some db => ret db
  end.

(** [NewDb]: [None] is the nil handle of the early return. *)
Definition NewDb (env : Env) (section : string) : P (option Conn) :=
  let! loaded := load_setting env section in
  match loaded with
  | None => ret None
  | Some setting =>
    let! db := connect env setting in
    ret (Some db)
  end.

(** The leading token of a connection string. *)
Definition kind_of (spec : string) : string :=
  match strings_Split spec "|" with
  | kind :: _ => kind
  | [] => ""
  end.

Definition recognized (kind : string) : bool :=
  String.eqb kind "sqlite" || String.eqb kind "sqlserver"
  || String.eqb kind "mysql" || String.eqb kind "postgres".

Fixpoint contains (sep : ascii) (s : string) : bool :=
  match s with
  | EmptyString => false
  | String c rest => Ascii.eqb c sep || contains sep rest
  end.

(** A connection string is malformed when it has no "|", or when it is a
    sqlite string whose parameter has no "&". *)
Definition malformed (spec : string) : bool :=
  negb (contains "|" spec)
  || (String.eqb (kind_of spec) "sqlite"
      && match strings_Split spec "|" !! 1%nat with
         | Some param => negb (contains "&" param)
         | None => true
         end).

End Factory.

(** ** Observing a run *)

(** What a run returned (nothing after a panic) and the rows it left in
    the table of [T]. *)
Definition returned {S A : Type} (o : outcome S A) : option A :=
  match o with
  | Done a _ => Some a
  | Panicked _ _ => None
  end.

Definition final {S A : Type} (o : outcome S A) : S :=
  match o with
  | Done _ s => s
  | Panicked _ s => s
  end.

Definition rows_after {T : Type} `{!Entity T} {A : Type}
    (o : outcome (World T) A) : option (list T) :=
  tables (session (final o)) !! TypeName.

(** ** Sample data *)

Module Sample.

(** A model whose [LastTime] was never set, one that carries a time, and
    a world with an empty [DbSimple] table in which nothing fails. *)
Definition unset : DbSimple.t :=
  {| DbSimple.Id := 1; DbSimple.LastTime := "0001-01-01 00:00:00" |}.

Definition dated : DbSimple.t :=
  {| DbSimple.Id := 2; DbSimple.LastTime := "2023-01-02 03:04:05" |}.

Definition clock : DateTime := "2024-05-06 07:08:09".

Definition empty_session : Session DbSimple.t :=
  {| tables := {[ "DbSimple" := [] ]}; faults := []; trace := [];
     TableName := λ name, name |}.

Definition world : World DbSimple.t :=
  {| heap := [unset]; session := empty_session; now := clock |}.

(** The same world once [unset] and [dated] are stored. *)
Definition stocked : World DbSimple.t :=
  {| heap := [unset];
     session := {| tables := {[ "DbSimple" := [unset; dated] ]};
                   faults := []; trace := []; TableName := λ name, name |};
     now := clock |}.

(** The stocked world when the next statement goes through and what gorm
    runs after it does not. *)
Definition late_failure : World DbSimple.t :=
  {| heap := [unset];
     session := {| tables := {[ "DbSimple" := [unset; dated] ]};
                   faults := [None; Some "commit failed"]; trace := [];
                   TableName := λ name, name |};
     now := clock |}.

(** The stocked world when the next query fails. *)
Definition probe_fails : World DbSimple.t :=
  {| heap := [unset];
     session := {| tables := {[ "DbSimple" := [unset; dated] ]};
                   faults := [Some "connection lost"]; trace := [];
                   TableName := λ name, name |};
     now := clock |}.



Definition dao : Dao (T := DbSimple.t) := {| db := open_DB |}.

(** Surroundings of [NewDb] in which the section "db" of module "app"
    holds the connection string [spec] and nothing fails. *)
Definition env (spec : string) : Factory.Env :=
  {| Factory.baseCfg := Some ("app", "sample", "1.0");
     Factory.viper_Get := λ key,
       if String.eqb key "app.db"
       then Some (Factory.Decodes
                    {| Factory.Connect := spec;
                       Factory.Config := Factory.Config Factory.default_setting |})
       else None;
     Factory.GetFullPath := λ path, path;
     Factory.CreateDirectory_fails := λ _, None;
     Factory.Open_fails := λ _ _, None |}.

Definition setting (spec : string) : Factory.setting :=
  {| Factory.Connect := spec;
     Factory.Config := Factory.Config Factory.default_setting |}.

End Sample.


(** ** The rest of the repository *)

Section RepositoryQueries.
Context {T : Type} `{!Entity T}.

Abbreviation M := (Run (World T)).

(** SELECT count( * ) ... WHERE ... *)
Definition count_matching (db : gorm_DB) (rows : list T) : error + (list T * Z * Z) :=
  inr (rows, 0, Z.of_nat (length (matching db rows))).

(** [db.Count(&count)]: the query yields one row, the count, which is
    scanned into [*count]; when it yields none, as on a failure, gorm
    stores the number of rows it got instead, which is zero.  The call is
    logged among the queries. *)
Definition gorm_Count (db : gorm_DB) (count : Z) : M (Result * Z) :=
  let! out := on_session (statement (count_matching db)) in
  match out with
  | inl e => let! r := finish CallFind (failed e) in ret (r, RowsAffected r)
  | inr (_, n) => let! r := finish CallFind (affected 1) in ret (r, n)
  end.

Definition DeleteCondition (dao : Dao) (condition : T → bool) : M (option error) :=
  let! zero := alloc new in
  let! result := gorm_Delete (Where (DB dao) condition) zero in
  ret (Error result).

Definition CheckExist (dao : Dao) (id : Z) : M bool :=
  let! model := alloc new in
  let! result := gorm_Find (Where (DB dao) (has_Id id)) model in
  if is_failure result || (RowsAffected result =? 0)
  then ret false
  else ret true.


Definition GetCount (dao : Dao) (query : T → bool) : M Z :=
  let! model := alloc new in
  let count := 0 in
  let! (_, count) := gorm_Count (Where (Model (DB dao) model) query) count in
  ret count.

(** *** Vocabulary for the statements about the rest *)

(** What the accessors of an entity type owe each other. *)
Class EntityLaws : Prop := {
  Id_with_LastTime t m : Id (with_LastTime t m) = Id m;
  Id_with_Id i m : Id (with_Id i m) = i;
  Id_updates m row : Id (updates m row) = Id row;
  LastTime_with_LastTime t m : LastTime (with_LastTime t m) = t;
  LastTime_with_Id i m : LastTime (with_Id i m) = LastTime m;
}.

(** No two rows share a primary key. *)
Definition unique_keys (rows : list T) : Prop := NoDup (Id <$> rows).

(** The table of [T], when it exists, satisfies [I]. *)
Definition table_has (I : list T → Prop) (w : World T) : Prop :=
  ∀ rows, tables (session w) !! TypeName = Some rows → I rows.

(** The computation [c] keeps [I] true of the table of [T], however it
    ends. *)
Definition keeps {A : Type} (I : list T → Prop) (c : M A) : Prop :=
  ∀ w, table_has I w → table_has I (final (c w)).

(** The engine has no failure in store and the table of [T] holds
    [rows]. *)
Definition calm (w : World T) (rows : list T) : Prop :=
  faults (session w) = [] ∧ tables (session w) !! TypeName = Some rows.

(** The [i]-th page of [size] rows. *)
Definition page (size : Z) (i : nat) (rows : list T) : list T :=
  take (Z.to_nat size) (drop (i * Z.to_nat size) rows).

End RepositoryQueries.

Arguments EntityLaws T {_}.

(** ** The base configuration ([setting.go]) *)

Module Setting.

Record config := {
  OpenLog : bool;
  SkipDefaultTransaction : bool;
  NoLowerCase : bool;
}.

Record setting := {
  Connect : string;
  Config : config;
  filePath : string;
}.

(** [initBaseConfig]: [Args] is [os.Args]; [json_Unmarshal] is what
    [json.Unmarshal] makes of a text as a [map[string]string]. *)
Definition initBaseConfig (Args : list string)
    (json_Unmarshal : string → error + gmap string string)
    : Run unit setting :=
  let config := {| filePath := "./config.yaml";
                   Connect := "sqlite|./db/data.db&OFF";
                   Config := {| OpenLog := false;
                                SkipDefaultTransaction := true;
                                NoLowerCase := true |} |} in
  if bool_decide (1 < length Args)%nat
  then
    let! arg := index Args 1 in
    match json_Unmarshal arg with
    | inl err => throw (PanicError err)
    | inr args =>
      match args !! "ConfigPath" with
      | Some val => ret {| filePath := val; Connect := Connect config;
                           Config := Config config |}
      | None => ret config
      end
    end
  else ret config.

End Setting.

(** * Properties *)

(** ** The monad and the primitives *)

Section RepositoryFacts.
Context {T : Type} `{!Entity T}.
Implicit Types (w : World T) (s : Session T) (m row elem : T) (rows : list T) (p : ptr).

Abbreviation M := (Run (World T)).

Lemma bind_Done {S A B} (c : Run S A) (k : A → Run S B) st a st' :
  c st = Done a st' → bind c k st = k a st'.
Proof. intros Hc. unfold bind. by rewrite Hc. Qed.

Lemma bind_Panicked {S A B} (c : Run S A) (k : A → Run S B) st q st' :
  c st = Panicked q st' → bind c k st = Panicked q st'.
Proof. intros Hc. unfold bind. by rewrite Hc. Qed.

Lemma on_session_eq {A} (f : Session T → A * Session T) w :
  on_session f w = Done (f (session w)).1 (set_session (f (session w)).2 w).
Proof. unfold on_session. by destruct (f (session w)). Qed.

Lemma finish_eq c r w :
  finish c r w = Done r (set_session (log (Exec c r) (session w)) w).
Proof. reflexivity. Qed.

Lemma load_eq p v w : heap w !! p = Some v → load p w = Done v w.
Proof. intros Hp. unfold load. by rewrite Hp. Qed.

Lemma store_eq p v0 v w :
  heap w !! p = Some v0 → store p v w = Done tt (set_heap (<[p := v]> (heap w)) w).
Proof. intros Hp. unfold store. by rewrite Hp. Qed.

(** A statement never touches the log; when it fails it leaves the tables
    alone, and when it succeeds it has replaced the table of [T]. *)
Lemma statement_trace {A} (run : list T → error + (list T * Z * A)) s :
  trace (statement run s).2 = trace s.
Proof.
  unfold statement, next_fault.
  destruct (faults s) as [|[e|] fs]; simpl; try done;
  destruct (tables s !! TypeName) as [rows|]; simpl; try done;
  destruct (run rows) as [e|[[rows' n] a]]; done.
Qed.

Lemma statement_inl {A} (run : list T → error + (list T * Z * A)) s e :
  (statement run s).1 = inl e → tables (statement run s).2 = tables s.
Proof.
  unfold statement, next_fault.
  destruct (faults s) as [|[e'|] fs]; simpl; try done;
  destruct (tables s !! TypeName) as [rows|]; simpl; try done;
  destruct (run rows) as [e'|[[rows' n] a]]; done.
Qed.

Lemma statement_inl_library {A} (run : list T → error + (list T * Z * A)) s e :
  (∀ rows e', run rows = inl e' → ∃ msg, e' = LibError msg) →
  (statement run s).1 = inl e → ∃ msg, e = LibError msg.
Proof.
  intros Hrun. unfold statement, next_fault.
  destruct (faults s) as [|[msg|] fs]; simpl.
  - destruct (tables s !! TypeName) as [rows|]; simpl; [|intros [= <-]; by eexists].
    destruct (run rows) as [e'|[[rows' n] a]] eqn:Hr; simpl; [|done].
    intros [= <-]. by eapply Hrun.
  - intros [= <-]. by eexists.
  - destruct (tables s !! TypeName) as [rows|]; simpl; [|intros [= <-]; by eexists].
    destruct (run rows) as [e'|[[rows' n] a]] eqn:Hr; simpl; [|done].
    intros [= <-]. by eapply Hrun.
Qed.


Lemma from_library_failed e : (∃ msg, e = LibError msg) → from_library (failed e).
Proof. intros Hlib e' [= <-]. done. Qed.


Lemma statement_inr {A} (run : list T → error + (list T * Z * A)) s n a :
  (statement run s).1 = inr (n, a) →
  ∃ rows rows', tables s !! TypeName = Some rows ∧ run rows = inr (rows', n, a) ∧
                tables (statement run s).2 = <[TypeName := rows']> (tables s).
Proof.
  unfold statement, next_fault.
  destruct (faults s) as [|[e'|] fs]; simpl; try done;
  destruct (tables s !! TypeName) as [rows|]; simpl; try done;
  destruct (run rows) as [e'|[[rows' n'] a']] eqn:Hrun; simpl; try done;
  intros [= -> ->]; eauto.
Qed.

Lemma statement_quiet {A} (run : list T → error + (list T * Z * A)) s rows :
  quiet s = true → tables s !! TypeName = Some rows →
  (statement run s).1 = match run rows with
                        | inl e => inl e
                        | inr (_, n, a) => inr (n, a)
                        end.
Proof.
  unfold quiet, statement, next_fault. intros Hq Ht.
  destruct (faults s) as [|[e'|] fs]; simpl; try done;
  rewrite Ht; destruct (run rows) as [e'|[[rows' n'] a']]; done.
Qed.

Lemma loop_prologue {A} elem (k : ptr → M A) w :
  (let! model := alloc elem in
   let! copy := load model in
   let! _ := stamp (qreflect_New (AnyVal copy)) in
   k model) w
  = k (length (heap w)) (set_heap (heap w ++ [elem]) w).
Proof.
  unfold bind at 1. unfold alloc. unfold bind at 1. unfold load. simpl.
  rewrite list_lookup_middle by done.
  unfold bind at 1. unfold stamp, qreflect_Get, qreflect_Set, qreflect_New, time_Now, bind, ret; simpl.
  destruct (String.eqb _ _); reflexivity.
Qed.

(** ** The gorm calls of the write paths *)



Lemma count_rows_zero i rows :
  count_rows (has_Id i) rows = 0 → existsb (has_Id i) rows = false.
Proof.
  unfold count_rows. induction rows as [|r rows IH]; simpl; [done|].
  destruct (has_Id i r); simpl; [lia|]. done.
Qed.

Lemma count_rows_pos i rows :
  count_rows (has_Id i) rows ≠ 0 → existsb (has_Id i) rows = true.
Proof.
  unfold count_rows. induction rows as [|r rows IH]; simpl; [done|].
  destruct (has_Id i r); simpl; [done|]. done.
Qed.

Lemma replaced_no_match m rows :
  existsb (has_Id (Id m)) rows = false → replaced m rows = rows.
Proof.
  unfold replaced. induction rows as [|r rows IH]; simpl; [done|].
  destruct (has_Id (Id m) r); simpl; [done|]. intros Hx. by rewrite IH.
Qed.

Lemma snapshot_eq w :
  on_session (λ s : Session T, (tables s, s)) w = Done (tables (session w)) w.
Proof. by destruct w. Qed.

Lemma settle_trace before s : trace (settle before s).2 = trace s.
Proof. unfold settle, next_fault. by destruct (faults s) as [|[e|] fs]. Qed.

Lemma settle_library before s e :
  (settle before s).1 = Some e → ∃ msg, e = LibError msg.
Proof.
  unfold settle, next_fault. destruct (faults s) as [|[msg|] fs]; simpl; try done.
  intros [= <-]. by eexists.
Qed.

Lemma settle_failed before s e :
  (settle before s).1 = Some e → tables (settle before s).2 = before.
Proof. unfold settle, next_fault. by destruct (faults s) as [|[msg|] fs]. Qed.

Lemma settle_passed before s :
  (settle before s).1 = None → tables (settle before s).2 = tables s.
Proof. unfold settle, next_fault. by destruct (faults s) as [|[msg|] fs]. Qed.

Lemma gorm_Updates_write_call d : write_call CallUpdates updated (gorm_Updates d).
Proof.
  intros p m w Hp. unfold gorm_Updates.
  rewrite (bind_Done _ _ _ _ _ (load_eq _ _ _ Hp)).
  destruct (Id m =? 0).
  { rewrite finish_eq. eexists _, _. split; [done|]. simpl. split; [done|].
    split; [apply from_library_failed; by eexists|]. done. }
  rewrite (bind_Done _ _ _ _ _ (snapshot_eq _)).
  rewrite (bind_Done _ _ _ _ _ (on_session_eq _ _)).
  destruct (statement (update_rows m) (session w)).1 as [e|[n []]] eqn:Hst.
  - rewrite finish_eq; eexists _, _; (split; [done|]); simpl.
    rewrite statement_trace; (split; [done|]). split.
    { apply from_library_failed. eapply statement_inl_library; [|done].
      intros rows0 e0. by unfold update_rows, replace_rows. }
    split; [|done]. intros e' _. by eapply statement_inl.
  - rewrite (bind_Done _ _ _ _ _ (on_session_eq _ _)).
    rewrite finish_eq; eexists _, _; (split; [done|]); simpl.
    rewrite settle_trace, statement_trace; (split; [done|]).
    split. { intros e He. by eapply settle_library. }
    split. { intros e He. by eapply settle_failed. }
    intros Hok. rewrite settle_passed by done.
    apply statement_inr in Hst as (rows & rows' & Hrows & Hrun & Htab).
    exists rows. split; [done|]. rewrite Htab. by injection Hrun as <- _.
Qed.


(** ** Batches *)



Lemma gorm_Transaction_eq d (fc : gorm_DB → M (option error)) w r w1 :
  fc (begin_tx d) (set_session (log Begin (session w)) w) = Done r w1 →
  gorm_Transaction d fc w
  = Done r (set_session
              (log (closing r)
                   (match r with
                    | None => session w1
                    | Some _ => set_tables (tables (session w)) (session w1)
                    end)) w1).
Proof.
  intros Hfc. unfold gorm_Transaction, bind, record, on_session. simpl.
  rewrite Hfc. by destruct r.
Qed.












(** ** Single writes *)

(** Through a pointer the stamp reaches the caller's object; through a
    boxed copy it reaches nothing. *)
Lemma qreflect_Get_pointer p m w :
  heap w !! p = Some m →
  qreflect_Get (qreflect_New (AnyPtr p)) "LastTime" w = Done (LastTime m) w.
Proof.
  intros Hp. unfold qreflect_Get, qreflect_New. simpl.
  by rewrite (bind_Done _ _ _ _ _ (load_eq _ _ _ Hp)).
Qed.

Lemma qreflect_Set_pointer p m t w :
  heap w !! p = Some m →
  qreflect_Set (qreflect_New (AnyPtr p)) "LastTime" t w
  = Done None (set_heap (<[p := with_LastTime t m]> (heap w)) w).
Proof.
  intros Hp. unfold qreflect_Set, qreflect_New. simpl.
  rewrite (bind_Done _ _ _ _ _ (load_eq _ _ _ Hp)).
  by rewrite (bind_Done _ _ _ _ _ (store_eq _ _ _ _ Hp)).
Qed.

Lemma stamp_through_pointer p m w :
  heap w !! p = Some m →
  stamp (qreflect_New (AnyPtr p)) w
  = Done tt (set_heap (<[p := stamped (now w) m]> (heap w)) w).
Proof.
  intros Hp. unfold stamp.
  rewrite (bind_Done _ _ _ _ _ (qreflect_Get_pointer _ _ _ Hp)).
  unfold stamped, zero_DateTime.
  destruct (String.eqb (LastTime m) _).
  - unfold time_Now, qtime_NewDateTime. unfold bind at 1.
    by rewrite (bind_Done _ _ _ _ _ (qreflect_Set_pointer _ _ _ _ Hp)).
  - unfold ret. rewrite list_insert_id by done. by destruct w.
Qed.

Lemma stamp_on_copy m w : stamp (qreflect_New (AnyVal m)) w = Done tt w.
Proof.
  unfold stamp, qreflect_Get, qreflect_Set, qreflect_New, time_Now, bind, ret. simpl.
  by destruct (String.eqb _ _).
Qed.

Lemma stamped_lookup p m t w :
  heap w !! p = Some m →
  heap (set_heap (<[p := stamped t m]> (heap w)) w) !! p = Some (stamped t m).
Proof.
  intros Hp. simpl. apply list_lookup_insert_eq. by eapply lookup_lt_Some.
Qed.




(** ** Delete *)

Lemma filter_negb_twice (cond : T → bool) rows :
  List.filter (λ r, negb (cond r)) (List.filter (λ r, negb (cond r)) rows)
  = List.filter (λ r, negb (cond r)) rows.
Proof.
  induction rows as [|r rows IH]; simpl; [done|].
  destruct (cond r) eqn:Hc; simpl; [done|]. by rewrite Hc, IH.
Qed.

Lemma Delete_runs dao id w :
  ∃ res w', Delete dao id w = Done (Error res) w' ∧
    trace (session w') = trace (session w) ++ [Exec CallDelete res] ∧
    (quiet (session w) = true →
     ∀ rows, tables (session w) !! TypeName = Some rows →
       ∃ cond, where_ (Where (DB dao) (has_Id id)) = Some cond ∧
         res = affected (count_rows cond rows) ∧
         tables (session w')
         = <[TypeName := List.filter (λ r, negb (cond r)) rows]> (tables (session w))).
Proof.
  unfold Delete. unfold bind at 1. unfold alloc.
  set (w0 := set_heap (heap w ++ [new]) w).
  assert (heap w0 !! length (heap w) = Some new) as Hp by (by apply list_lookup_middle).
  unfold gorm_Delete. unfold bind at 1.
  rewrite (bind_Done _ _ _ _ _ (load_eq _ _ _ Hp)).
  destruct (where_ (Where (DB dao) (has_Id id))) as [cond|] eqn:Hw; [|done].
  rewrite (bind_Done _ _ _ _ _ (on_session_eq _ _)).
  destruct (statement (delete_rows cond) (session w0)).1 as [e|[n []]] eqn:Hst;
    rewrite finish_eq; eexists _, _; (split; [reflexivity|]); simpl;
    rewrite statement_trace; (split; [done|]); intros Hq rows Hrows;
    rewrite (statement_quiet _ _ rows Hq Hrows) in Hst; [done|].
  simpl in Hst. injection Hst as <-.
  exists cond. split; [done|]. split; [done|].
  destruct (statement (delete_rows cond) (session w0)).1 as [e|[n []]] eqn:Hst.
  { by rewrite (statement_quiet _ _ rows Hq Hrows) in Hst. }
  apply statement_inr in Hst as (rows1 & rows2 & Hrows1 & Hrun & Htab).
  simpl in Hrows1. rewrite Hrows in Hrows1. injection Hrows1 as <-.
  by injection Hrun as <- _.
Qed.

(** C7. [Delete] ends and returns exactly the error of its delete
    statement.  When the statement goes through, that is nil however many
    rows carry the id, none included, and the rows with the id are gone;
    run again, it returns nil again and leaves the tables as the first run
    left them. *)
Theorem Delete_is_idempotent dao id w rows :
  unscoped (DB dao) →
  tables (session w) !! TypeName = Some rows →
  quiet (session w) = true →
  (∀ w0, ∃ res w', Delete dao id w0 = Done (Error res) w' ∧
            trace (session w') = trace (session w0) ++ [Exec CallDelete res]) ∧
  ∃ w1, Delete dao id w = Done None w1 ∧
    tables (session w1)
    = <[TypeName := List.filter (λ r, negb (has_Id id r)) rows]> (tables (session w)) ∧
    (quiet (session w1) = true →
     ∃ w2, Delete dao id w1 = Done None w2 ∧ tables (session w2) = tables (session w1)).
Proof.
  intros (Hw & _ & _) Hrows Hq. split.
  { intros w0. destruct (Delete_runs dao id w0) as (res & w' & Hrun & Htr & _). eauto. }
  destruct (Delete_runs dao id w) as (res & w1 & Hrun & Htr & Hok).
  destruct (Hok Hq rows Hrows) as (cond & Hcond & -> & Htab).
  unfold Where in Hcond. simpl in Hcond. rewrite Hw in Hcond. injection Hcond as <-.
  exists w1. split; [done|]. split; [done|]. intros Hq1.
  destruct (Delete_runs dao id w1) as (res2 & w2 & Hrun2 & Htr2 & Hok2).
  destruct (Hok2 Hq1 (List.filter (λ r, negb (has_Id id r)) rows)) as (cond & Hcond & -> & Htab2).
  { by rewrite Htab, lookup_insert_eq. }
  unfold Where in Hcond. simpl in Hcond. rewrite Hw in Hcond. injection Hcond as <-.
  exists w2. split; [done|]. rewrite Htab2, Htab, insert_insert_eq.
  by rewrite filter_negb_twice.
Qed.

(** ** Reads *)

Lemma GetModel_runs dao id w :
  ∃ res r w', GetModel dao id w = Done (r, Error res) w' ∧
    trace (session w') = trace (session w) ++ [Exec CallFind res] ∧
    (quiet (session w) = true →
     ∀ rows, tables (session w) !! TypeName = Some rows →
       Error res = None ∧
       match apply_limit (limit (DB dao)) (apply_offset (offset (DB dao))
               (matching (Where (DB dao) (has_Id id)) rows)) with
       | [] => r = None
       | row :: _ => r = Some (length (heap w)) ∧ heap w' !! length (heap w) = Some row
       end).
Proof.
  unfold GetModel. unfold bind at 1. unfold alloc.
  set (w0 := set_heap (heap w ++ [new]) w).
  assert (heap w0 !! length (heap w) = Some new) as Hp by (by apply list_lookup_middle).
  unfold gorm_Find. unfold bind at 1.
  rewrite (bind_Done _ _ _ _ _ (load_eq _ _ _ Hp)).
  rewrite (bind_Done _ _ _ _ _ (on_session_eq _ _)).
  set (d := Where (DB dao) (has_Id id)).
  destruct (statement (select_rows d) (session w0)).1 as [e|[n [|row found]]] eqn:Hst.
  - rewrite finish_eq. simpl. exists (failed e). eexists _, _. split; [reflexivity|]. simpl.
    rewrite statement_trace. split; [done|]. intros Hq rows Hrows.
    by rewrite (statement_quiet _ _ rows Hq Hrows) in Hst.
  - rewrite finish_eq. simpl. exists (affected 0). eexists _, _. split; [reflexivity|]. simpl.
    rewrite statement_trace. split; [done|]. intros Hq rows Hrows.
    rewrite (statement_quiet _ _ rows Hq Hrows) in Hst. simpl in Hst.
    injection Hst as _ Hsel. split; [done|]. subst d. simpl in Hsel.
    by rewrite Hsel.
  - assert (heap (set_session (statement (select_rows d) (session w0)).2 w0)
              !! length (heap w) = Some new) as Hp' by done.
    rewrite (bind_Done _ _ _ _ _ (store_eq _ _ row _ Hp')).
    rewrite finish_eq. simpl. exists (affected 1). eexists _, _. split; [reflexivity|]. simpl.
    rewrite statement_trace. split; [done|]. intros Hq rows Hrows.
    rewrite (statement_quiet _ _ rows Hq Hrows) in Hst. simpl in Hst.
    injection Hst as _ Hsel. split; [done|]. subst d. simpl in Hsel.
    rewrite Hsel. split; [done|].
    apply list_lookup_insert_eq. rewrite length_app. simpl. lia.
Qed.

(** C4. [GetModel] ends with the error of its query, which is nil when
    the query goes through.  Then, if exactly one row carries the id, the
    result points to a copy of that row; if no row carries it, the result
    is nil, still without an error. *)
Theorem GetModel_found_or_absent dao id w rows :
  unscoped (DB dao) →
  tables (session w) !! TypeName = Some rows →
  quiet (session w) = true →
  (∀ w0, ∃ res r w', GetModel dao id w0 = Done (r, Error res) w' ∧
            trace (session w') = trace (session w0) ++ [Exec CallFind res]) ∧
  (∀ row, List.filter (has_Id id) rows = [row] →
     ∃ model w', GetModel dao id w = Done (Some model, None) w' ∧
                 heap w' !! model = Some row) ∧
  (List.filter (has_Id id) rows = [] →
     ∃ w', GetModel dao id w = Done (None, None) w').
Proof.
  intros (Hw & Hl & Ho) Hrows Hq. split.
  { intros w0. destruct (GetModel_runs dao id w0) as (res & r & w' & Hrun & Htr & _). eauto. }
  destruct (GetModel_runs dao id w) as (res & r & w' & Hrun & Htr & Hok).
  destruct (Hok Hq rows Hrows) as [Herr Hsel].
  rewrite Hl, Ho in Hsel. unfold matching, Where in Hsel. simpl in Hsel.
  rewrite Hw in Hsel. rewrite Herr in Hrun. split.
  - intros row Hrow. rewrite Hrow in Hsel. destruct Hsel as [-> Hheap]. eauto.
  - intros Hnone. rewrite Hnone in Hsel. subst r. eauto.
Qed.

(** ** Construction *)

Lemma table_named_spec (s : Session T) name :
  table_named s name = true ↔ ∃ k, is_Some (tables s !! k) ∧ TableName s k = name.
Proof.
  unfold table_named. rewrite existsb_exists. split.
  - intros ([k rows] & Hin & Heq). exists k. split.
    + exists rows. by apply elem_of_map_to_list, list_elem_of_In.
    + by apply String.eqb_eq.
  - intros (k & [rows Hk] & Heq). exists (k, rows). split.
    + by apply list_elem_of_In, elem_of_map_to_list.
    + by apply String.eqb_eq.
Qed.

(** The probe changes neither the tables nor the log; what it reports
    present is there under that name; and it is exact when its query goes
    through on a session that names tables as their types are named. *)
Lemma probe_tables name (s : Session T) : tables (probe name s).2 = tables s.
Proof. unfold probe, next_fault. by destruct (faults s) as [|[msg|] fs]. Qed.

Lemma probe_trace name (s : Session T) : trace (probe name s).2 = trace s.
Proof. unfold probe, next_fault. by destruct (faults s) as [|[msg|] fs]. Qed.

Lemma probe_TableName name (s : Session T) : TableName (probe name s).2 = TableName s.
Proof. unfold probe, next_fault. by destruct (faults s) as [|[msg|] fs]. Qed.

Lemma probe_sound name (s : Session T) :
  (probe name s).1 = true → ∃ k, is_Some (tables s !! k) ∧ TableName s k = name.
Proof.
  unfold probe, next_fault.
  destruct (faults s) as [|[msg|] fs]; simpl; [|done|]; intros Hp;
    by apply table_named_spec in Hp.
Qed.

Lemma probe_exact (s : Session T) :
  quiet s = true → (∀ name, TableName s name = name) →
  (probe TypeName s).1 = true ↔ is_Some (tables s !! TypeName).
Proof.
  intros Hq Hid.
  assert ((probe TypeName s).1 = table_named s TypeName) as ->.
  { revert Hq. unfold quiet, probe, next_fault.
    by destruct (faults s) as [|[msg|] fs]. }
  rewrite table_named_spec. split.
  - intros (k & Hk & Heq). rewrite Hid in Heq. by subst k.
  - intros Hk. by exists TypeName.
Qed.

Lemma Migrator_HasTable_eq d name w :
  Migrator_HasTable d name w
  = Done (probe name (session w)).1
         (set_session (log (Probe name (probe name (session w)).1)
                           (probe name (session w)).2) w).
Proof.
  unfold Migrator_HasTable.
  rewrite (bind_Done _ _ _ _ _ (on_session_eq _ _)). unfold record.
  by rewrite (bind_Done _ _ _ _ _ (on_session_eq _ _)).
Qed.

Lemma gorm_AutoMigrate_runs d p v w :
  heap w !! p = Some v →
  ∃ res w', gorm_AutoMigrate d p w = Done (Error res) w' ∧
    trace (session w') = trace (session w) ++ [Exec CallAutoMigrate res] ∧
    (Error res = None →
     tables (session w') = if tables (session w) !! TypeName is Some _
                           then tables (session w)
                           else <[TypeName := []]> (tables (session w))) ∧
    (Error res ≠ None → tables (session w') = tables (session w)) ∧
    TableName (session w') = TableName (session w).
Proof.
  intros Hp. unfold gorm_AutoMigrate.
  rewrite (bind_Done _ _ _ _ _ (load_eq _ _ _ Hp)).
  rewrite (bind_Done _ _ _ _ _ (on_session_eq _ _)).
  rewrite (bind_Done _ _ _ _ _ (finish_eq _ _ _)).
  eexists _, _. split; [reflexivity|]. simpl.
  unfold create_table, next_fault.
  destruct (faults (session w)) as [|[msg|] fs]; simpl;
    destruct (tables (session w) !! TypeName); simpl; done.
Qed.

(** [NewDao], by what its probe reports. *)
Lemma NewDao_runs d w :
  ∃ r w', NewDao d w = Done r w' ∧
    TableName (session w') = TableName (session w) ∧
    if (probe TypeName (session w)).1
    then r = Some {| db := d |} ∧
         trace (session w') = trace (session w) ++ [Probe TypeName true] ∧
         tables (session w') = tables (session w)
    else ∃ res,
         trace (session w') = trace (session w)
                              ++ [Probe TypeName false; Exec CallAutoMigrate res] ∧
         (r = None ↔ Error res ≠ None) ∧
         (Error res = None →
          r = Some {| db := d |} ∧
          tables (session w') = if tables (session w) !! TypeName is Some _
                                then tables (session w)
                                else <[TypeName := []]> (tables (session w))) ∧
         (Error res ≠ None → tables (session w') = tables (session w)).
Proof.
  set (w0 := set_heap (heap w ++ [new]) w).
  assert (heap w0 !! length (heap w) = Some new) as Hp by (by apply list_lookup_middle).
  assert (alloc new w = Done (length (heap w)) w0) as Halloc by done.
  unfold NewDao.
  rewrite (bind_Done _ _ _ _ _ Halloc), (bind_Done _ _ _ _ _ (Migrator_HasTable_eq _ _ _)).
  change (session w0) with (session w).
  pose proof (probe_tables TypeName (session w)) as Htab.
  pose proof (probe_trace TypeName (session w)) as Htrace.
  pose proof (probe_TableName TypeName (session w)) as Hnaming.
  destruct (probe TypeName (session w)) as [present s1].
  simpl in Htab, Htrace, Hnaming |- *.
  destruct present.
  - simpl. eexists _, _. split; [reflexivity|]. simpl. by rewrite Htrace, Htab.
  - rewrite bool_decide_eq_true_2 by done.
    destruct (gorm_AutoMigrate_runs d (length (heap w)) new
                (set_session (log (Probe TypeName false) s1) w0) Hp)
      as (res & w' & Hrun & Htr & Hok & Hko & Hnm).
    rewrite (bind_Done _ _ _ _ _ Hrun). simpl in Htr, Hok, Hko, Hnm.
    rewrite Htab in Hok, Hko. rewrite Htrace, <- app_assoc in Htr.
    rewrite Hnaming in Hnm.
    destruct (Error res) as [e|] eqn:Hres.
    + exists None, w'. split; [done|]. split; [done|]. exists res. split; [done|].
      rewrite Hres. split; [done|]. split; [done|]. intros _. by apply Hko.
    + exists (Some {| db := d |}), w'. split; [done|]. split; [done|].
      exists res. split; [done|].
      rewrite Hres. split; [done|]. split; [|done]. intros _. split; [done|]. by apply Hok.
Qed.


(** ** List queries *)

Lemma is_failure_false res : is_failure res = false → Error res = None.
Proof. unfold is_failure. by destruct (Error res). Qed.




Lemma alloc_all_eq rows w :
  alloc_all rows w
  = Done (seq (length (heap w)) (length rows)) (set_heap (heap w ++ rows) w).
Proof.
  revert w. induction rows as [|row rest IH]; intros w.
  - simpl. rewrite app_nil_r. by destruct w.
  - simpl. unfold bind at 1. unfold alloc.
    rewrite (bind_Done _ _ _ _ _ (IH _)). unfold ret. simpl.
    rewrite length_app, Nat.add_1_r, <- app_assoc. done.
Qed.

Lemma fresh_objects (h rows : list T) :
  Forall2 (λ p row, (h ++ rows) !! p = Some row) (seq (length h) (length rows)) rows.
Proof.
  revert h. induction rows as [|row rest IH]; intros h; simpl; constructor.
  - by apply list_lookup_middle.
  - specialize (IH (h ++ [row])).
    rewrite length_app, Nat.add_1_r, <- app_assoc in IH. done.
Qed.

Lemma gorm_Find_ptrs_runs d w :
  ∃ res ps w', gorm_Find_ptrs d make_slice w = Done (res, Slice ps) w' ∧
    trace (session w') = trace (session w) ++ [Exec CallFind res] ∧
    (Error res ≠ None → ps = []) ∧
    (Error res = None →
     ∃ rows, tables (session w) !! TypeName = Some rows ∧
       Forall2 (λ p row, heap w' !! p = Some row) ps
         (apply_limit (limit d) (apply_offset (offset d) (matching d rows)))) ∧
    (quiet (session w) = true → is_Some (tables (session w) !! TypeName) →
     Error res = None).
Proof.
  unfold gorm_Find_ptrs.
  rewrite (bind_Done _ _ _ _ _ (on_session_eq _ _)).
  destruct (statement (select_rows d) (session w)).1 as [e|[n found]] eqn:Hst.
  - rewrite (bind_Done _ _ _ _ _ (finish_eq _ _ _)).
    eexists _, _, _. split; [reflexivity|]. simpl. rewrite statement_trace.
    split; [done|]. split; [done|]. split; [done|].
    intros Hq [rows Hrows]. by rewrite (statement_quiet _ _ _ Hq Hrows) in Hst.
  - rewrite (bind_Done _ _ _ _ _ (alloc_all_eq _ _)).
    rewrite (bind_Done _ _ _ _ _ (finish_eq _ _ _)).
    eexists _, _, _. split; [reflexivity|]. simpl. rewrite statement_trace.
    split; [done|]. split; [done|]. split; [|done]. intros _.
    apply statement_inr in Hst as (rows & rows' & Hrows & Hrun & _).
    exists rows. split; [done|]. injection Hrun as _ _ <-. apply fresh_objects.
Qed.

(** C8. [GetConditionsLimit] ends with a slice and the error of its query.
    With [maxCount > 0] the slice never has more than [maxCount] entries,
    and when the query goes through they point to copies of the first
    [maxCount] rows that satisfy the predicate; with [maxCount <= 0] they
    point to copies of all the rows that satisfy it.  On an error the
    slice is empty.  And the query does go through when the engine
    reports no failure and the table is there: the error is then nil and
    the slice holds these rows, all that satisfy the predicate when
    [maxCount <= 0]. *)
Theorem GetConditionsLimit_bounds dao maxCount (query : T → bool) w :
  unscoped (DB dao) →
  ∃ ps err w' res, GetConditionsLimit dao maxCount query w = Done (Slice ps, err) w' ∧
    trace (session w') = trace (session w) ++ [Exec CallFind res] ∧
    err = Error res ∧
    (0 < maxCount → Z.of_nat (length ps) ≤ maxCount) ∧
    (err ≠ None → ps = []) ∧
    (err = None →
     ∃ rows, tables (session w) !! TypeName = Some rows ∧
       Forall2 (λ p row, heap w' !! p = Some row) ps
         (if 0 <? maxCount
          then take (Z.to_nat maxCount) (List.filter query rows)
          else List.filter query rows)) ∧
    (∀ rows, quiet (session w) = true → tables (session w) !! TypeName = Some rows →
       err = None ∧
       Forall2 (λ p row, heap w' !! p = Some row) ps
         (if 0 <? maxCount
          then take (Z.to_nat maxCount) (List.filter query rows)
          else List.filter query rows)).
Proof.
  intros (Hw & Hl & Ho). unfold GetConditionsLimit. cbv zeta.
  assert (∀ (P : list T → Prop) (err : option error),
            (err = None → ∃ rows, tables (session w) !! TypeName = Some rows ∧ P rows) →
            (quiet (session w) = true → is_Some (tables (session w) !! TypeName) →
             err = None) →
            ∀ rows, quiet (session w) = true → tables (session w) !! TypeName = Some rows →
                    err = None ∧ P rows) as Hsure.
  { intros P err Hfound Hq rows Hquiet Hrows.
    assert (err = None) as Herr by (apply Hq; [done|by exists rows]).
    split; [done|]. destruct (Hfound Herr) as (rows0 & Hrows0 & HP). congruence. }
  destruct (0 <? maxCount) eqn:Hmax.
  - set (d := Limit (Where (DB dao) query) maxCount).
    destruct (gorm_Find_ptrs_runs d w) as (res & ps & w' & Hrun & Htr & Hko & Hok & Hq).
    rewrite (bind_Done _ _ _ _ _ Hrun).
    assert (Error res = None →
            ∃ rows, tables (session w) !! TypeName = Some rows ∧
              Forall2 (λ p row, heap w' !! p = Some row) ps
                (take (Z.to_nat maxCount) (List.filter query rows))) as Hfound.
    { intros Hres. destruct (Hok Hres) as (rows & Hrows & Hall). exists rows.
      split; [done|]. revert Hall. subst d. unfold matching, Where, Limit. simpl.
      rewrite Hw, Ho. simpl. apply Z.ltb_lt in Hmax.
      destruct (0 <=? maxCount) eqn:Hle; [done|]. apply Z.leb_gt in Hle. lia. }
    exists ps, (Error res), w', res. split.
    { destruct (is_failure res) eqn:Hf; simpl; [done|].
      destruct (RowsAffected res =? 0); [done|]. by rewrite (is_failure_false _ Hf). }
    split; [done|]. split; [done|]. split; [|split; [done|split; [done|]]].
    + intros _. destruct (Error res) as [e|] eqn:Hres.
      * rewrite Hko by done. simpl. apply Z.ltb_lt in Hmax. lia.
      * destruct (Hfound eq_refl) as (rows & _ & Hall).
        apply Forall2_length in Hall. rewrite Hall, length_take. lia.
    + by apply Hsure.
  - set (d := Where (DB dao) query).
    destruct (gorm_Find_ptrs_runs d w) as (res & ps & w' & Hrun & Htr & Hko & Hok & Hq).
    rewrite (bind_Done _ _ _ _ _ Hrun).
    assert (Error res = None →
            ∃ rows, tables (session w) !! TypeName = Some rows ∧
              Forall2 (λ p row, heap w' !! p = Some row) ps (List.filter query rows))
      as Hfound.
    { intros Hres. destruct (Hok Hres) as (rows & Hrows & Hall).
      exists rows. split; [done|]. revert Hall. subst d. unfold matching, Where. simpl.
      by rewrite Hw, Hl, Ho. }
    exists ps, (Error res), w', res. split.
    { destruct (is_failure res) eqn:Hf; simpl; [done|].
      destruct (RowsAffected res =? 0); [done|]. by rewrite (is_failure_false _ Hf). }
    split; [done|]. split; [done|]. split.
    { intros Hpos. apply Z.ltb_ge in Hmax. lia. }
    split; [done|]. split; [done|]. by apply Hsure.
Qed.

End RepositoryFacts.

(** ** The connection factory *)

Section FactoryFacts.
Import Factory.

Lemma strings_Split_nonempty s sep :
  ∃ piece pieces, strings_Split s sep = piece :: pieces.
Proof.
  induction s as [|c rest IH]; simpl; [by eexists _, _|].
  destruct (Ascii.eqb c sep); [by eexists _, _|].
  destruct IH as (piece & pieces & ->). by eexists _, _.
Qed.

(** A string has the separator exactly when it splits in two or more. *)
Lemma contains_split s sep :
  contains sep s = match strings_Split s sep with
                   | _ :: _ :: _ => true
                   | _ => false
                   end.
Proof.
  induction s as [|c rest IH]; simpl; [done|].
  destruct (strings_Split_nonempty rest sep) as (piece & pieces & Hsp).
  destruct (Ascii.eqb c sep); simpl; [by rewrite Hsp|].
  rewrite IH, Hsp. by destruct pieces.
Qed.

Lemma malformed_shape spec kind rest :
  strings_Split spec "|" = kind :: rest →
  kind_of spec = kind ∧
  malformed spec = match rest with
                   | [] => true
                   | param :: _ =>
                     String.eqb kind "sqlite"
                     && match strings_Split param "&" with
                        | _ :: _ :: _ => false
                        | _ => true
                        end
                   end.
Proof.
  intros Hsp. unfold malformed, kind_of. rewrite contains_split, Hsp.
  split; [done|]. destruct rest as [|param rest]; simpl; [done|].
  rewrite contains_split. by destruct (strings_Split param "&") as [|? [|? ?]].
Qed.

Ltac run_connect :=
  unfold connect, bind, index, ret, throw, effect, gorm_Open; simpl.

Ltac other_kind :=
  match goal with
  | Hsp : strings_Split _ _ = _ :: ?rest |- _ =>
    split; [by rewrite ?orb_true_r|];
    destruct rest as [|? ?];
    (split; [intros _ ?|intros ? ? ?]); run_connect; rewrite Hsp; simpl;
    repeat match goal with E : String.eqb _ _ = _ |- _ => rewrite E; clear E end; simpl;
    try done; try (by eexists _, _);
    try (by intros [= <- <- _]);
    try (destruct (Open_fails _ _ _); simpl; done)
  end.

Lemma connect_outcome env setting effs :
  (recognized (kind_of (Connect setting)) = false →
   connect env setting effs = Panicked (PanicError (ErrorsNew "unknown db type")) effs) ∧
  (recognized (kind_of (Connect setting)) = true →
   malformed (Connect setting) = true →
   ∃ q effs', connect env setting effs = Panicked q effs') ∧
  (∀ i n effs', connect env setting effs = Panicked (IndexOutOfRange i n) effs' →
   recognized (kind_of (Connect setting)) = true ∧ malformed (Connect setting) = true
   ∧ i = 1%nat ∧ n = 1%nat).
Proof.
  destruct (strings_Split_nonempty (Connect setting) "|") as (kind & rest & Hsp).
  destruct (malformed_shape _ _ _ Hsp) as [-> ->].
  unfold recognized.
  destruct (String.eqb kind "sqlite") eqn:E1.
  { split; [done|]. destruct rest as [|param rest].
    - split.
      + intros _ _. run_connect. rewrite Hsp. simpl. rewrite E1. simpl. by eexists _, _.
      + intros i n effs'. run_connect. rewrite Hsp. simpl. rewrite E1. simpl.
        by intros [= <- <- _].
    - destruct (strings_Split_nonempty param "&") as (path & modes & Hspp).
      rewrite Hspp. split.
      + intros _ Hbad. run_connect. rewrite Hsp. simpl. rewrite E1. simpl.
        rewrite Hspp. simpl. destruct modes as [|mode modes]; [|done].
        destruct (CreateDirectory_fails env _); [by eexists _, _|].
        destruct (Open_fails env _ _); by eexists _, _.
      + intros i n effs'. run_connect. rewrite Hsp. simpl. rewrite E1. simpl.
        rewrite Hspp. simpl.
        destruct (CreateDirectory_fails env _); [done|].
        destruct (Open_fails env _ _); [done|].
        destruct modes as [|mode modes]; simpl.
        * by intros [= <- <- _].
        * destruct (negb _); simpl; done. }
  assert (∀ b, false && b = false) as Hand by done.
  destruct (String.eqb kind "sqlserver") eqn:E2; [other_kind|].
  destruct (String.eqb kind "mysql") eqn:E3; [other_kind|].
  destruct (String.eqb kind "postgres") eqn:E4; [other_kind|].
  split; [|split]; [|done|].
  - intros _. run_connect. rewrite Hsp. simpl. by rewrite E1, E2, E3, E4.
  - intros i n effs'. run_connect. rewrite Hsp. simpl. by rewrite E1, E2, E3, E4.
Qed.

(** C6. Whenever the configuration resolves to a setting, [NewDb] on a
    connection string whose leading token is not one of the four kinds
    aborts with the "unknown db type" error before doing anything; on a
    string of a known kind that lacks the "|", or a sqlite string whose
    parameter lacks the "&", it aborts as well and returns no connection;
    and an index expression on the split segments goes out of range only
    for such a malformed string of a known kind, at index 1 of a single
    segment, which aborts the call. *)
Theorem NewDb_aborts_on_bad_spec env section setting effs0 effs1 :
  load_setting env section effs0 = Done (Some setting) effs1 →
  (recognized (kind_of (Connect setting)) = false →
   NewDb env section effs0
   = Panicked (PanicError (ErrorsNew "unknown db type")) effs1) ∧
  (recognized (kind_of (Connect setting)) = false ∨ malformed (Connect setting) = true →
   ∃ q effs2, NewDb env section effs0 = Panicked q effs2) ∧
  (∀ i n effs2, NewDb env section effs0 = Panicked (IndexOutOfRange i n) effs2 →
   recognized (kind_of (Connect setting)) = true ∧ malformed (Connect setting) = true
   ∧ i = 1%nat ∧ n = 1%nat).
Proof.
  intros Hload. unfold NewDb. rewrite (bind_Done _ _ _ _ _ Hload).
  destruct (connect_outcome env setting effs1) as (Hunknown & Hbad & Hrange).
  split; [|split].
  - intros Hkind. by rewrite (bind_Panicked _ _ _ _ _ (Hunknown Hkind)).
  - intros Hcase.
    destruct (recognized (kind_of (Connect setting))) eqn:Hkind.
    + destruct Hcase as [|Hmal]; [done|].
      destruct (Hbad eq_refl Hmal) as (q & effs2 & Hrun).
      exists q, effs2. by rewrite (bind_Panicked _ _ _ _ _ Hrun).
    + eexists _, _. by rewrite (bind_Panicked _ _ _ _ _ (Hunknown eq_refl)).
  - intros i n effs2. unfold bind.
    destruct (connect env setting effs1) as [db effs'|q effs'] eqn:Hrun; [done|].
    intros [= -> ->]. exact (Hrange _ _ _ eq_refl).
Qed.
End FactoryFacts.

(** ** The stamp on the write paths *)

Section StampFacts.
Context {T : Type} `{!Entity T}.
Implicit Types (w : World T) (m : T) (p : ptr).

(** The single-item writes hand gorm the stamped model: the pointer given
    to [qreflect.New] is the one given to the statement. *)
Lemma single_writes_stamp dao p m w :
  heap w !! p = Some m →
  let w1 := set_heap (<[p := stamped (now w) m]> (heap w)) w in
  heap w1 !! p = Some (stamped (now w) m) ∧
  Create dao p w = (let! result := gorm_Create (DB dao) p in ret (Error result)) w1 ∧
  Save dao p w = (let! result := gorm_Save (DB dao) p in ret (Error result)) w1.
Proof.
  intros Hp w1. split; [by apply stamped_lookup|]. unfold Create, Save.
  by rewrite !(bind_Done _ _ _ _ _ (stamp_through_pointer _ _ _ Hp)).
Qed.

(** In a batch the stamp is spent on a copy: a turn of the loop is the
    gorm call on the element as it came. *)
Lemma batch_turn_unstamped (call : ptr → Run (World T) Result) elem w :
  (let! model := alloc elem in
   let! copy := load model in
   let ref := qreflect_New (AnyVal copy) in
   let! _ := stamp ref in
   let! result := call model in
   ret (Error result)) w
  = (let! result := call (length (heap w)) in ret (Error result))
      (set_heap (heap w ++ [elem]) w).
Proof.
  exact (loop_prologue elem (λ model, let! result := call model in ret (Error result)) w).
Qed.

End StampFacts.

(** C1, at a concrete batch.  [Create] on a model whose [LastTime] is the
    zero value stores it with the reading of the clock; [CreateList] and
    [SaveList] on a batch holding that same model return nil and store it
    with [LastTime] still at the zero value. *)
Theorem batch_writes_store_zero_LastTime :
  LastTime Sample.unset = "0001-01-01 00:00:00" ∧
  returned (Create Sample.dao 0%nat Sample.world) = Some None ∧
  rows_after (Create Sample.dao 0%nat Sample.world)
  = Some [with_LastTime Sample.clock Sample.unset] ∧
  returned (CreateList Sample.dao [Sample.unset] Sample.world) = Some None ∧
  rows_after (CreateList Sample.dao [Sample.unset] Sample.world) = Some [Sample.unset] ∧
  returned (SaveList Sample.dao [Sample.unset] Sample.world) = Some None ∧
  rows_after (SaveList Sample.dao [Sample.unset] Sample.world) = Some [Sample.unset].
Proof. vm_compute. repeat split. Qed.

(** C3, at a stored model.  The update statement for [Sample.unset]
    affects its one row, and what gorm runs after the statement fails:
    the result of the [Updates] call carries that error beside the count
    of one row, and the table is as it was.  [Update] tests the count
    first and returns nil; [UpdateList], on the same model in the same
    world, returns the error of its [Updates] call. *)
Theorem Update_hides_late_error :
  tables (session Sample.late_failure) !! @TypeName DbSimple.t _
  = Some [Sample.unset; Sample.dated] ∧
  returned (Update Sample.dao 0%nat Sample.late_failure) = Some None ∧
  trace (session (final (Update Sample.dao 0%nat Sample.late_failure)))
  = [Exec CallUpdates {| Error := Some (LibError "commit failed"); RowsAffected := 1 |}] ∧
  rows_after (Update Sample.dao 0%nat Sample.late_failure)
  = Some [Sample.unset; Sample.dated] ∧
  returned (UpdateList Sample.dao [Sample.unset] Sample.late_failure)
  = Some (Some (LibError "commit failed")).
Proof. vm_compute. repeat split. Qed.


(** ** The statements at the sample data *)




Lemma Delete_is_idempotent_witness :
  unscoped (DB Sample.dao) ∧
  tables (session Sample.stocked) !! @TypeName DbSimple.t _ = Some [Sample.unset; Sample.dated] ∧
  quiet (session Sample.stocked) = true ∧
  ∃ w1, Delete Sample.dao 7 Sample.stocked = Done None w1 ∧
        tables (session w1)
        = <[@TypeName DbSimple.t _ := List.filter (λ r, negb (has_Id 7 r)) [Sample.unset; Sample.dated]]>
            (tables (session Sample.stocked)).
Proof.
  assert (unscoped (DB Sample.dao)) as Hplain by (repeat split).
  assert (tables (session Sample.stocked) !! @TypeName DbSimple.t _
          = Some [Sample.unset; Sample.dated]) as Hrows by reflexivity.
  split; [exact Hplain|]. split; [exact Hrows|]. split; [reflexivity|].
  destruct (Delete_is_idempotent Sample.dao 7 Sample.stocked [Sample.unset; Sample.dated]
              Hplain Hrows eq_refl) as (_ & w1 & Hrun & Htab & _).
  exists w1. split; assumption.
Defined.

Lemma GetModel_found_or_absent_witness :
  unscoped (DB Sample.dao) ∧
  tables (session Sample.stocked) !! @TypeName DbSimple.t _ = Some [Sample.unset; Sample.dated] ∧
  quiet (session Sample.stocked) = true ∧
  List.filter (has_Id 2) [Sample.unset; Sample.dated] = [Sample.dated] ∧
  List.filter (has_Id 7) [Sample.unset; Sample.dated] = [] ∧
  (∃ model w', GetModel Sample.dao 2 Sample.stocked = Done (Some model, None) w' ∧
               heap w' !! model = Some Sample.dated) ∧
  (∃ w', GetModel Sample.dao 7 Sample.stocked = Done (None, None) w').
Proof.
  assert (unscoped (DB Sample.dao)) as Hplain by (repeat split).
  assert (tables (session Sample.stocked) !! @TypeName DbSimple.t _
          = Some [Sample.unset; Sample.dated]) as Hrows by reflexivity.
  split; [exact Hplain|]. split; [exact Hrows|]. split; [reflexivity|].
  split; [reflexivity|]. split; [reflexivity|]. split.
  - exact (proj1 (proj2 (GetModel_found_or_absent Sample.dao 2 Sample.stocked
                           [Sample.unset; Sample.dated] Hplain Hrows eq_refl))
             Sample.dated eq_refl).
  - exact (proj2 (proj2 (GetModel_found_or_absent Sample.dao 7 Sample.stocked
                           [Sample.unset; Sample.dated] Hplain Hrows eq_refl))
             eq_refl).
Defined.

Lemma GetConditionsLimit_bounds_witness :
  unscoped (DB Sample.dao) ∧
  quiet (session Sample.stocked) = true ∧
  tables (session Sample.stocked) !! @TypeName DbSimple.t _ = Some [Sample.unset; Sample.dated] ∧
  (∃ ps w', GetConditionsLimit Sample.dao 0 (λ _, true) Sample.stocked
            = Done (Slice ps, None) w' ∧
            Forall2 (λ p row, heap w' !! p = Some row) ps [Sample.unset; Sample.dated]) ∧
  (∃ ps w', GetConditionsLimit Sample.dao 1 (λ _, true) Sample.stocked
            = Done (Slice ps, None) w' ∧
            Forall2 (λ p row, heap w' !! p = Some row) ps [Sample.unset]).
Proof.
  assert (unscoped (DB Sample.dao)) as Hplain by (repeat split).
  assert (tables (session Sample.stocked) !! @TypeName DbSimple.t _
          = Some [Sample.unset; Sample.dated]) as Hrows by reflexivity.
  split; [exact Hplain|]. split; [reflexivity|]. split; [exact Hrows|]. split.
  - destruct (GetConditionsLimit_bounds Sample.dao 0 (λ _, true) Sample.stocked Hplain)
      as (ps & err & w' & res & Hrun & _ & _ & _ & _ & _ & Hsure).
    destruct (Hsure _ eq_refl Hrows) as [Herr Hall].
    exists ps, w'. rewrite Herr in Hrun. split; [exact Hrun|exact Hall].
  - destruct (GetConditionsLimit_bounds Sample.dao 1 (λ _, true) Sample.stocked Hplain)
      as (ps & err & w' & res & Hrun & _ & _ & _ & _ & _ & Hsure).
    destruct (Hsure _ eq_refl Hrows) as [Herr Hall].
    exists ps, w'. rewrite Herr in Hrun. split; [exact Hrun|exact Hall].
Defined.

Lemma NewDb_aborts_on_bad_spec_witness :
  Factory.load_setting (Sample.env "sqlite|./db/data.db") "db" []
  = Done (Some (Sample.setting "sqlite|./db/data.db")) [] ∧
  Factory.malformed "sqlite|./db/data.db" = true ∧
  ∃ q effs, Factory.NewDb (Sample.env "sqlite|./db/data.db") "db" [] = Panicked q effs.
Proof.
  split; [reflexivity|]. split; [reflexivity|].
  apply (proj1 (proj2 (NewDb_aborts_on_bad_spec
                         (Sample.env "sqlite|./db/data.db") "db"
                         (Sample.setting "sqlite|./db/data.db") [] [] eq_refl))).
  right. reflexivity.
Defined.

(** The batch update and the single update on the same absent record. *)
Example UpdateList_and_Update_on_absent_record :
  returned (UpdateList Sample.dao [Sample.dated] Sample.world) = Some None ∧
  returned (Update Sample.dao 0%nat Sample.world)
  = Some (Some (ErrorsNew "update record does not exist")).
Proof. vm_compute. split; reflexivity. Qed.

(** What [NewDb] does with well-formed and with malformed strings. *)
Example NewDb_on_sample_strings :
  (∃ db effs, Factory.NewDb (Sample.env "sqlite|./db/data.db&OFF") "db" []
              = Done (Some db) effs) ∧
  Factory.NewDb (Sample.env "sqlite|./db/data.db") "db" []
  = Panicked (IndexOutOfRange 1 1)
      [Factory.CreateDirectory "./db/data.db"; Factory.Open Factory.sqlite "./db/data.db"] ∧
  Factory.NewDb (Sample.env "mysql") "db" [] = Panicked (IndexOutOfRange 1 1) [] ∧
  Factory.NewDb (Sample.env "oracle|x") "db" []
  = Panicked (PanicError (ErrorsNew "unknown db type")) [].
Proof. vm_compute. repeat split. by eexists _, _. Qed.

(** * Further properties *)

(** ** The sample entity types obey the entity laws *)

#[global] Instance DbSimple_EntityLaws : EntityLaws DbSimple.t.
Proof. by split. Qed.

#[global] Instance DbFull_EntityLaws : EntityLaws DbFull.t.
Proof. by split. Qed.

(** ** Invariants of the table *)

Section InvariantFacts.
Context {T : Type} `{!Entity T}.
Implicit Types (w : World T) (s : Session T) (m row elem : T) (rows : list T) (p : ptr).
Implicit Types (I : list T → Prop).

Abbreviation M := (Run (World T)).

Lemma keeps_ret {A} I (a : A) : keeps I (ret a : M A).
Proof. by intros w Hw. Qed.

Lemma keeps_bind {A B} I (c : M A) (k : A → M B) :
  keeps I c → (∀ a, keeps I (k a)) → keeps I (bind c k).
Proof.
  intros Hc Hk w Hw. specialize (Hc w Hw). unfold bind.
  destruct (c w) as [a w'|q w']; simpl in *; [by apply Hk|done].
Qed.

Lemma keeps_tables {A} I (c : M A) :
  (∀ w, tables (session (final (c w))) = tables (session w)) → keeps I c.
Proof. intros Hsame w Hw rows. rewrite Hsame. apply Hw. Qed.

Lemma keeps_alloc I v : keeps I (alloc v).
Proof. by apply keeps_tables. Qed.

Lemma keeps_load I p : keeps I (load p).
Proof. apply keeps_tables. intros w. unfold load. by destruct (heap w !! p). Qed.

Lemma keeps_store I p v : keeps I (store p v).
Proof. apply keeps_tables. intros w. unfold store. by destruct (heap w !! p). Qed.

Lemma keeps_finish I c r : keeps I (finish c r).
Proof. by apply keeps_tables. Qed.

Lemma keeps_stamp I ref : keeps I (stamp ref).
Proof.
  unfold stamp, qreflect_Get, qreflect_Set.
  apply keeps_bind.
  { apply keeps_bind; [|intros; apply keeps_ret].
    destruct (object ref); [apply keeps_load|apply keeps_ret]. }
  intros text. destruct (String.eqb text _); [|apply keeps_ret].
  apply keeps_bind; [by apply keeps_tables|]. intros t.
  apply keeps_bind; [|intros; apply keeps_ret].
  destruct (object ref); [|apply keeps_ret].
  destruct (String.eqb _ _); [|apply keeps_ret].
  apply keeps_bind; [apply keeps_load|]. intros v.
  apply keeps_bind; [apply keeps_store|]. intros; apply keeps_ret.
Qed.

(** A statement keeps what its effect on the rows keeps. *)
Lemma keeps_statement {A} I (run : list T → error + (list T * Z * A)) :
  (∀ rows rows' n a, run rows = inr (rows', n, a) → I rows → I rows') →
  keeps I (on_session (statement run)).
Proof.
  intros Hrun w Hw rows'. rewrite on_session_eq. simpl.
  destruct (statement run (session w)).1 as [e|[n a]] eqn:Hst.
  - rewrite (statement_inl _ _ _ Hst). apply Hw.
  - apply statement_inr in Hst as (rows & rows1 & Hrows & Hr & ->).
    rewrite lookup_insert_eq. intros [= <-]. eapply Hrun; [done|]. by apply Hw.
Qed.

Lemma keeps_Transaction I d (fc : gorm_DB → M (option error)) :
  (∀ tx, keeps I (fc tx)) → keeps I (gorm_Transaction d fc).
Proof.
  intros Hfc w Hw. unfold gorm_Transaction.
  assert (keeps I (let! _ := record Begin in fc (begin_tx d))) as Hbody.
  { apply keeps_bind; [by apply keeps_tables|]. intros _. apply Hfc. }
  specialize (Hbody w Hw).
  destruct ((let! _ := record Begin in fc (begin_tx d)) w) as [[e|] w'|q w']; simpl in *; done.
Qed.

Lemma keeps_range_loop I (list : list T) (body : T → M (option error)) :
  (∀ elem, keeps I (body elem)) → keeps I (range_loop list body).
Proof.
  intros Hbody. induction list as [|elem rest IH]; simpl; [apply keeps_ret|].
  apply keeps_bind; [apply Hbody|]. intros [e|]; [apply keeps_ret|apply IH].
Qed.

Lemma keeps_batch I (call : gorm_DB → ptr → M Result) dao (list : list T) :
  (∀ d p, keeps I (call d p)) → keeps I (batch call dao list).
Proof.
  intros Hcall. unfold batch.
  apply keeps_bind; [|intros; apply keeps_ret].
  apply keeps_Transaction. intros tx. apply keeps_range_loop. intros elem.
  apply keeps_bind; [apply keeps_alloc|]. intros model.
  apply keeps_bind; [apply keeps_load|]. intros copy. cbv zeta.
  apply keeps_bind; [apply keeps_stamp|]. intros _.
  apply keeps_bind; [apply Hcall|]. intros; apply keeps_ret.
Qed.

(** *** Unique primary keys *)

Lemma has_Id_spec i row : has_Id i row = true ↔ Id row = i.
Proof. unfold has_Id. apply Z.eqb_eq. Qed.

Lemma existsb_has_Id i rows : existsb (has_Id i) rows = false ↔ i ∉ Id <$> rows.
Proof.
  induction rows as [|r rows IH]; csimpl.
  - split; [intros _; apply not_elem_of_nil|done].
  - rewrite orb_false_iff, IH, not_elem_of_cons. unfold has_Id.
    rewrite Z.eqb_neq. split; intros [Hne Hrest]; (split; [congruence|done]).
Qed.

Lemma unique_keys_append rows row :
  unique_keys rows → existsb (has_Id (Id row)) rows = false → unique_keys (rows ++ [row]).
Proof.
  unfold unique_keys. intros Hnd Hfresh. rewrite fmap_app. simpl.
  apply NoDup_app. split; [done|]. split; [|apply NoDup_singleton].
  intros i Hi Hin. apply list_elem_of_singleton in Hin as ->.
  by apply existsb_has_Id in Hfresh.
Qed.

Lemma Id_replaced m rows : Id <$> replaced m rows = Id <$> rows.
Proof.
  unfold replaced. induction rows as [|r rows IH]; csimpl; [done|].
  f_equal; [|exact IH]. destruct (has_Id (Id m) r) eqn:Hr; [|done].
  by apply has_Id_spec in Hr.
Qed.

Lemma Id_updated `{!EntityLaws T} m rows : Id <$> updated m rows = Id <$> rows.
Proof.
  unfold updated. induction rows as [|r rows IH]; csimpl; [done|].
  f_equal; [|exact IH]. destruct (has_Id (Id m) r); [apply Id_updates|done].
Qed.

Lemma unique_keys_filter (cond : T → bool) rows :
  unique_keys rows → unique_keys (List.filter cond rows).
Proof.
  unfold unique_keys. induction rows as [|r rows IH]; simpl; [done|].
  rewrite NoDup_cons. intros [Hfresh Hnd]. destruct (cond r); [|by apply IH].
  simpl. apply NoDup_cons. split; [|by apply IH].
  intros Hin. apply Hfresh. apply list_elem_of_fmap in Hin as (r' & -> & Hr').
  apply list_elem_of_fmap. exists r'. split; [done|].
  apply list_elem_of_In in Hr'. apply filter_In in Hr' as [Hr' _].
  by apply list_elem_of_In.
Qed.

Lemma keeps_create_as c p : keeps unique_keys (create_as c p).
Proof.
  unfold create_as. apply keeps_bind; [apply keeps_load|]. intros m.
  apply keeps_bind.
  { apply keeps_statement. intros rows rows' n a. unfold insert_row.
    destruct (existsb _ rows) eqn:Hex; [done|]. intros [= <- _ _] Hnd.
    by apply unique_keys_append. }
  intros [e|[n row]]; [apply keeps_finish|].
  apply keeps_bind; [apply keeps_store|]. intros _. apply keeps_finish.
Qed.

Lemma keeps_gorm_Updates `{!EntityLaws T} d p : keeps unique_keys (gorm_Updates d p).
Proof.
  intros w Hw. destruct (heap w !! p) as [m|] eqn:Hp.
  - destruct (gorm_Updates_write_call d p m w Hp) as (res & w' & Hrun & _ & _ & Hko & Hok).
    rewrite Hrun. simpl. intros rows' Hrows'. destruct (Error res) as [e|] eqn:Hres.
    + rewrite (Hko e eq_refl) in Hrows'. by apply Hw.
    + destruct (Hok eq_refl) as (rows & Hrows & Htab).
      rewrite Htab, lookup_insert_eq in Hrows'. injection Hrows' as <-.
      unfold unique_keys. rewrite Id_updated. by apply Hw.
  - unfold gorm_Updates, bind, load. by rewrite Hp.
Qed.

Lemma keeps_gorm_Save d p : keeps unique_keys (gorm_Save d p).
Proof.
  unfold gorm_Save. apply keeps_bind; [apply keeps_load|]. intros m.
  destruct (Id m =? 0); [apply keeps_create_as|].
  apply keeps_bind.
  { apply keeps_statement. intros rows rows' n a [= <- _ _]. unfold unique_keys.
    by rewrite Id_replaced. }
  intros [e|[n []]]; [apply keeps_finish|].
  destruct (n =? 0); [|apply keeps_finish].
  apply keeps_bind.
  { apply keeps_statement. intros rows rows' n2 a. unfold upsert_row.
    destruct (existsb _ rows) eqn:Hex; intros [= <- _ _] Hnd.
    - unfold unique_keys. by rewrite Id_replaced.
    - by apply unique_keys_append. }
  intros [e|[n2 []]]; apply keeps_finish.
Qed.

Lemma keeps_gorm_Delete d p : keeps unique_keys (gorm_Delete d p).
Proof.
  unfold gorm_Delete. apply keeps_bind; [apply keeps_load|]. intros _.
  destruct (where_ d) as [cond|]; [|apply keeps_finish].
  apply keeps_bind.
  { apply keeps_statement. intros rows rows' n a [= <- _ _].
    apply unique_keys_filter. }
  intros [e|[n []]]; apply keeps_finish.
Qed.

(** X1. Every write operation of the repository keeps the primary keys
    of the table unique, whether it succeeds, fails or is rolled back. *)
Theorem writes_keep_keys_unique `{!EntityLaws T} dao p (list : list T) id
    (condition : T → bool) :
  keeps unique_keys (Create dao p) ∧
  keeps unique_keys (CreateList dao list) ∧
  keeps unique_keys (Update dao p) ∧
  keeps unique_keys (UpdateList dao list) ∧
  keeps unique_keys (Save dao p) ∧
  keeps unique_keys (SaveList dao list) ∧
  keeps unique_keys (Delete dao id) ∧
  keeps unique_keys (DeleteCondition dao condition).
Proof.
  repeat split.
  - unfold Create. apply keeps_bind; [apply keeps_stamp|]. intros _.
    apply keeps_bind; [apply keeps_create_as|]. intros; apply keeps_ret.
  - apply (keeps_batch unique_keys gorm_Create). intros d q. apply keeps_create_as.
  - unfold Update. apply keeps_bind; [apply keeps_stamp|]. intros _.
    apply keeps_bind; [apply keeps_gorm_Updates|]. intros r.
    destruct (0 <? RowsAffected r); [apply keeps_ret|].
    destruct (Error r); apply keeps_ret.
  - apply (keeps_batch unique_keys gorm_Updates). apply keeps_gorm_Updates.
  - unfold Save. apply keeps_bind; [apply keeps_stamp|]. intros _.
    apply keeps_bind; [apply keeps_gorm_Save|]. intros; apply keeps_ret.
  - apply (keeps_batch unique_keys gorm_Save). apply keeps_gorm_Save.
  - unfold Delete. apply keeps_bind; [apply keeps_alloc|]. intros zero.
    apply keeps_bind; [apply keeps_gorm_Delete|]. intros; apply keeps_ret.
  - unfold DeleteCondition. apply keeps_bind; [apply keeps_alloc|]. intros zero.
    apply keeps_bind; [apply keeps_gorm_Delete|]. intros; apply keeps_ret.
Qed.

End InvariantFacts.

(** ** Runs in which the engine does not fail *)

Section CalmFacts.
Context {T : Type} `{!Entity T}.
Implicit Types (w : World T) (s : Session T) (m row elem : T) (rows : list T) (p : ptr).

Abbreviation M := (Run (World T)).

Lemma statement_calm {A} (run : list T → error + (list T * Z * A)) s rows :
  faults s = [] → tables s !! TypeName = Some rows →
  statement run s
  = match run rows with
    | inl e => (inl e, s)
    | inr (rows', n, a) => (inr (n, a), set_tables (<[TypeName := rows']> (tables s)) s)
    end.
Proof.
  intros Hf Ht. unfold statement, next_fault. rewrite Hf, Ht.
  by destruct (run rows) as [e|[[rows' n] a]].
Qed.

(** The run of one statement in a calm world, with the world it leaves. *)
Lemma on_statement_calm {A} (run : list T → error + (list T * Z * A)) w rows :
  calm w rows →
  match run rows with
  | inl e => on_session (statement run) w = Done (inl e) w
  | inr (rows', n, a) =>
    ∃ w', on_session (statement run) w = Done (inr (n, a)) w' ∧
          calm w' rows' ∧ heap w' = heap w ∧ now w' = now w ∧
          trace (session w') = trace (session w)
  end.
Proof.
  intros [Hf Ht]. rewrite on_session_eq, (statement_calm _ _ _ Hf Ht).
  destruct (run rows) as [e|[[rows' n] a]]; simpl.
  - by destruct w as [h [tb fs tr nm] t].
  - eexists. split; [done|]. repeat split; try done. simpl. apply lookup_insert_eq.
Qed.

Lemma calm_quiet w rows : calm w rows → quiet (session w) = true.
Proof. intros [Hf _]. unfold quiet. by rewrite Hf. Qed.

Lemma calm_log w rows ev : calm w rows → calm (set_session (log ev (session w)) w) rows.
Proof. by intros [Hf Ht]. Qed.

Lemma calm_set_heap w rows h : calm w rows → calm (set_heap h w) rows.
Proof. by intros [Hf Ht]. Qed.

Lemma filter_no_match (cond : T → bool) rows :
  existsb cond rows = false → List.filter cond rows = [].
Proof.
  induction rows as [|r rows IH]; simpl; [done|].
  destruct (cond r); simpl; [done|]. exact IH.
Qed.

Lemma filter_some_match (cond : T → bool) rows :
  existsb cond rows = true → ∃ row rest, List.filter cond rows = row :: rest.
Proof.
  induction rows as [|r rows IH]; simpl; [done|].
  destruct (cond r); simpl; [by eexists _, _|]. exact IH.
Qed.



(** *** Create *)

Lemma create_as_calm c p m w rows :
  heap w !! p = Some m → calm w rows →
  if existsb (has_Id (Id (inserted m rows))) rows
  then ∃ w', create_as c p w = Done (failed (LibError "UNIQUE constraint failed")) w' ∧
             calm w' rows ∧ heap w' = heap w
  else ∃ w', create_as c p w = Done (affected 1) w' ∧
             calm w' (rows ++ [inserted m rows]) ∧
             heap w' = <[p := inserted m rows]> (heap w).
Proof.
  intros Hp Hcalm. unfold create_as.
  rewrite (bind_Done _ _ _ _ _ (load_eq _ _ _ Hp)).
  pose proof (on_statement_calm (insert_row m) w rows Hcalm) as Hst.
  unfold insert_row in Hst.
  destruct (existsb (has_Id (Id (inserted m rows))) rows).
  - rewrite (bind_Done _ _ _ _ _ Hst), finish_eq. eexists. split; [done|].
    split; [by apply calm_log|done].
  - destruct Hst as (w' & Hrun & Hcalm' & Hheap & _).
    rewrite (bind_Done _ _ _ _ _ Hrun).
    assert (heap w' !! p = Some m) as Hp' by (by rewrite Hheap).
    rewrite (bind_Done _ _ _ _ _ (store_eq _ _ _ _ Hp')), finish_eq.
    eexists. split; [done|]. split.
    + by apply calm_log, calm_set_heap.
    + simpl. by rewrite Hheap.
Qed.

Lemma filter_fresh_append i rows row :
  existsb (has_Id i) rows = false → Id row = i →
  List.filter (has_Id i) (rows ++ [row]) = [row].
Proof.
  intros Hfresh Hid. rewrite List.filter_app, (filter_no_match _ _ Hfresh). simpl.
  apply has_Id_spec in Hid. by rewrite Hid.
Qed.

(** A single-row query in a calm world: the first selected row, if any,
    lands in the object given. *)
Lemma gorm_Find_calm d p v w rows :
  heap w !! p = Some v → calm w rows →
  match apply_limit (limit d) (apply_offset (offset d) (matching d rows)) with
  | [] => ∃ w', gorm_Find d p w = Done (affected 0) w' ∧ calm w' rows ∧ heap w' = heap w
  | row :: _ => ∃ w', gorm_Find d p w = Done (affected 1) w' ∧ calm w' rows ∧
                      heap w' = <[p := row]> (heap w)
  end.
Proof.
  intros Hp Hcalm. unfold gorm_Find.
  rewrite (bind_Done _ _ _ _ _ (load_eq _ _ _ Hp)).
  destruct (on_statement_calm (select_rows d) w rows Hcalm) as (w1 & Hrun & Hc1 & Hh1 & _).
  rewrite (bind_Done _ _ _ _ _ Hrun).
  destruct (apply_limit _ _) as [|row found].
  - rewrite finish_eq. eexists. split; [done|]. split; [by apply calm_log|done].
  - assert (heap w1 !! p = Some v) as Hp1 by (by rewrite Hh1).
    rewrite (bind_Done _ _ _ _ _ (store_eq _ _ row _ Hp1)), finish_eq.
    eexists. split; [done|]. split; [by apply calm_log, calm_set_heap|].
    simpl. by rewrite Hh1.
Qed.

Lemma selection_by (d : gorm_DB) (cond : T → bool) rows :
  unscoped d →
  apply_limit (limit (Where d cond)) (apply_offset (offset (Where d cond))
    (matching (Where d cond) rows))
  = List.filter cond rows.
Proof. intros (Hw & Hl & Ho). unfold matching, Where. simpl. by rewrite Hw, Hl, Ho. Qed.

Lemma GetModel_calm dao id w rows :
  unscoped (DB dao) → calm w rows →
  match List.filter (has_Id id) rows with
  | [] => ∃ w', GetModel dao id w = Done (None, None) w' ∧ calm w' rows
  | row :: _ => ∃ model w', GetModel dao id w = Done (Some model, None) w' ∧
                            heap w' !! model = Some row ∧ calm w' rows
  end.
Proof.
  intros Hplain Hcalm. unfold GetModel.
  set (w0 := set_heap (heap w ++ [new]) w).
  assert (alloc new w = Done (length (heap w)) w0) as Halloc by done.
  assert (heap w0 !! length (heap w) = Some new) as Hp by (by apply list_lookup_middle).
  rewrite (bind_Done _ _ _ _ _ Halloc).
  pose proof (gorm_Find_calm (Where (DB dao) (has_Id id)) _ _ w0 rows Hp
                (calm_set_heap _ _ _ Hcalm)) as Hfind.
  rewrite (selection_by _ _ _ Hplain) in Hfind.
  destruct (List.filter (has_Id id) rows) as [|row rest];
    destruct Hfind as (w' & Hrun & Hc' & Hh'); rewrite (bind_Done _ _ _ _ _ Hrun); simpl.
  - eauto.
  - eexists _, _. split; [done|]. split; [|done]. rewrite Hh'.
    apply list_lookup_insert_eq. by eapply lookup_lt_Some.
Qed.

(** *** What the stamp and the engine's key do to a model *)

Lemma stamped_Id `{!EntityLaws T} t m : Id (stamped t m) = Id m.
Proof. unfold stamped. destruct (String.eqb _ _); [apply Id_with_LastTime|done]. Qed.

Lemma stamped_LastTime `{!EntityLaws T} t m :
  LastTime (stamped t m)
  = if String.eqb (LastTime m) zero_DateTime then t else LastTime m.
Proof. unfold stamped. destruct (String.eqb _ _); [apply LastTime_with_LastTime|done]. Qed.

Lemma inserted_LastTime `{!EntityLaws T} m rows : LastTime (inserted m rows) = LastTime m.
Proof. unfold inserted. destruct (Id m =? 0); [apply LastTime_with_Id|done]. Qed.

Lemma next_Id_above rows row : row ∈ rows → Id row < next_Id rows.
Proof.
  unfold next_Id. induction rows as [|r rows IH]; intros Hin.
  - by apply elem_of_nil in Hin.
  - simpl. apply elem_of_cons in Hin as [->|Hin]; [lia|]. specialize (IH Hin). lia.
Qed.

Lemma next_Id_fresh rows : existsb (has_Id (next_Id rows)) rows = false.
Proof.
  apply existsb_has_Id. intros Hin. apply list_elem_of_fmap in Hin as (r & Heq & Hr).
  apply next_Id_above in Hr. lia.
Qed.

Lemma inserted_fresh `{!EntityLaws T} m rows :
  Id m = 0 ∨ existsb (has_Id (Id m)) rows = false →
  existsb (has_Id (Id (inserted m rows))) rows = false.
Proof.
  unfold inserted. intros [Hz|Hfresh].
  - rewrite Hz. simpl. rewrite Id_with_Id. apply next_Id_fresh.
  - destruct (Id m =? 0); [|done]. rewrite Id_with_Id. apply next_Id_fresh.
Qed.

Lemma Create_calm dao p m w rows :
  heap w !! p = Some m → calm w rows →
  if existsb (has_Id (Id (inserted (stamped (now w) m) rows))) rows
  then ∃ w', Create dao p w = Done (Some (LibError "UNIQUE constraint failed")) w' ∧
             calm w' rows ∧ heap w' !! p = Some (stamped (now w) m)
  else ∃ w', Create dao p w = Done None w' ∧
             calm w' (rows ++ [inserted (stamped (now w) m) rows]) ∧
             heap w' !! p = Some (inserted (stamped (now w) m) rows).
Proof.
  intros Hp Hcalm. unfold Create.
  rewrite (bind_Done _ _ _ _ _ (stamp_through_pointer _ _ _ Hp)).
  pose proof (create_as_calm CallCreate p _ _ rows (stamped_lookup p m (now w) w Hp)
                (calm_set_heap _ _ _ Hcalm)) as Hrun.
  unfold gorm_Create.
  destruct (existsb _ rows); destruct Hrun as (w' & Hrun & Hc' & Hh');
    rewrite (bind_Done _ _ _ _ _ Hrun); eexists; (split; [done|]); (split; [done|]);
    rewrite Hh'.
  - by apply stamped_lookup.
  - simpl. rewrite list_insert_insert_eq. apply list_lookup_insert_eq. by eapply lookup_lt_Some.
Qed.

(** X2. [Create] then [GetModel]: in a calm world, a model that brings no
    key, or a key no stored row has, is appended to the table as it is
    once stamped (and keyed by the engine); the caller's object holds that
    same row; [GetModel] by its key then returns a copy of it; and its
    [LastTime] is the clock reading if the model came with the zero value,
    the model's own otherwise, so never the zero value while the clock
    does not read it. *)
Theorem Create_then_GetModel `{!EntityLaws T} dao p m w rows :
  unscoped (DB dao) → heap w !! p = Some m → calm w rows →
  Id m = 0 ∨ existsb (has_Id (Id m)) rows = false →
  ∃ row w1, Create dao p w = Done None w1 ∧
    row = inserted (stamped (now w) m) rows ∧
    calm w1 (rows ++ [row]) ∧ heap w1 !! p = Some row ∧
    (∃ model w2, GetModel dao (Id row) w1 = Done (Some model, None) w2 ∧
                 heap w2 !! model = Some row) ∧
    LastTime row = (if String.eqb (LastTime m) zero_DateTime then now w else LastTime m) ∧
    (now w ≠ zero_DateTime → LastTime row ≠ zero_DateTime).
Proof.
  intros Hplain Hp Hcalm Hkey.
  assert (existsb (has_Id (Id (inserted (stamped (now w) m) rows))) rows = false) as Hfresh.
  { apply inserted_fresh. by rewrite stamped_Id. }
  pose proof (Create_calm dao p m w rows Hp Hcalm) as Hrun. rewrite Hfresh in Hrun.
  destruct Hrun as (w1 & Hrun & Hc1 & Hh1).
  exists (inserted (stamped (now w) m) rows), w1.
  split; [done|]. split; [done|]. split; [done|]. split; [done|].
  assert (LastTime (inserted (stamped (now w) m) rows)
          = if String.eqb (LastTime m) zero_DateTime then now w else LastTime m) as Htime.
  { by rewrite inserted_LastTime, stamped_LastTime. }
  split; [|split; [done|]].
  - pose proof (GetModel_calm dao (Id (inserted (stamped (now w) m) rows)) w1 _ Hplain Hc1)
      as Hget.
    rewrite (filter_fresh_append _ _ _ Hfresh eq_refl) in Hget.
    destruct Hget as (model & w2 & Hget & Hheap & _). eauto.
  - intros Hnow. rewrite Htime.
    destruct (String.eqb (LastTime m) zero_DateTime) eqn:Hz; [done|].
    by apply String.eqb_neq in Hz.
Qed.

(** X3. [Create] on a key that is taken: the engine's constraint error
    comes back and the table is as it was, but the caller's model has
    been stamped all the same. *)
Theorem Create_on_taken_key `{!EntityLaws T} dao p m w rows :
  heap w !! p = Some m → calm w rows →
  Id m ≠ 0 → existsb (has_Id (Id m)) rows = true →
  ∃ w1, Create dao p w = Done (Some (LibError "UNIQUE constraint failed")) w1 ∧
    calm w1 rows ∧ heap w1 !! p = Some (stamped (now w) m).
Proof.
  intros Hp Hcalm Hid Htaken.
  pose proof (Create_calm dao p m w rows Hp Hcalm) as Hrun.
  unfold inserted in Hrun. rewrite stamped_Id in Hrun.
  apply Z.eqb_neq in Hid. rewrite Hid, stamped_Id, Htaken in Hrun. done.
Qed.

(** *** Save and Update *)


Lemma replaced_other_keys m i rows :
  i ≠ Id m →
  List.filter (has_Id i) (replaced m rows) = List.filter (has_Id i) rows.
Proof.
  intros Hne. unfold replaced. induction rows as [|r rows IH]; simpl; [done|].
  destruct (has_Id (Id m) r) eqn:Hj.
  - apply has_Id_spec in Hj.
    assert (has_Id i m = false) as ->.
    { unfold has_Id. apply Z.eqb_neq. congruence. }
    assert (has_Id i r = false) as ->.
    { unfold has_Id. apply Z.eqb_neq. congruence. }
    exact IH.
  - destruct (has_Id i r); [by rewrite IH|exact IH].
Qed.

Lemma replaced_first m rows :
  existsb (has_Id (Id m)) rows = true →
  ∃ rest, List.filter (has_Id (Id m)) (replaced m rows) = m :: rest.
Proof.
  unfold replaced. induction rows as [|r rows IH]; simpl; [done|].
  destruct (has_Id (Id m) r) eqn:Hj; simpl.
  - intros _. assert (has_Id (Id m) m = true) as -> by (by apply has_Id_spec).
    by eexists.
  - rewrite Hj. exact IH.
Qed.

Lemma saved_first m rows :
  ∃ rest, List.filter (has_Id (Id m)) (if existsb (has_Id (Id m)) rows
                                       then replaced m rows else rows ++ [m])
          = m :: rest.
Proof.
  destruct (existsb (has_Id (Id m)) rows) eqn:Hex; [by apply replaced_first|].
  exists []. by apply filter_fresh_append.
Qed.

Lemma gorm_Save_calm d p m w rows :
  heap w !! p = Some m → calm w rows → Id m ≠ 0 →
  ∃ n w', gorm_Save d p w = Done (affected n) w' ∧
    calm w' (saved m rows) ∧ heap w' = heap w.
Proof.
  intros Hp Hcalm Hid. unfold gorm_Save, saved.
  rewrite (bind_Done _ _ _ _ _ (load_eq _ _ _ Hp)).
  apply Z.eqb_neq in Hid. rewrite Hid.
  destruct (on_statement_calm (replace_rows m) w rows Hcalm) as (w1 & Hrun & Hc1 & Hh1 & _).
  rewrite (bind_Done _ _ _ _ _ Hrun).
  destruct (count_rows (has_Id (Id m)) rows =? 0) eqn:Hn.
  - apply Z.eqb_eq in Hn. apply count_rows_zero in Hn. rewrite Hn.
    rewrite (replaced_no_match _ _ Hn) in Hc1.
    pose proof (on_statement_calm (upsert_row m) w1 rows Hc1) as Hst.
    unfold upsert_row in Hst. rewrite Hn in Hst.
    destruct Hst as (w2 & Hrun2 & Hc2 & Hh2 & _).
    rewrite (bind_Done _ _ _ _ _ Hrun2), finish_eq.
    eexists _, _. split; [done|]. split; [by apply calm_log|]. simpl. congruence.
  - apply Z.eqb_neq in Hn. apply count_rows_pos in Hn. rewrite Hn.
    rewrite finish_eq. eexists _, _. split; [done|]. split; [by apply calm_log|done].
Qed.

(** X4. [Save] then [GetModel]: in a calm world, saving a model that has
    a key returns nil; [GetModel] by that key then returns a copy of the
    stamped model, whether the key was stored before or not; a stored key
    keeps the number of rows, a new one adds the model at the end; and the
    rows of every other key are as they were. *)
Theorem Save_then_GetModel `{!EntityLaws T} dao p m w rows :
  unscoped (DB dao) → heap w !! p = Some m → calm w rows → Id m ≠ 0 →
  ∃ row rows1 w1, Save dao p w = Done None w1 ∧
    row = stamped (now w) m ∧ calm w1 rows1 ∧
    (∃ model w2, GetModel dao (Id m) w1 = Done (Some model, None) w2 ∧
                 heap w2 !! model = Some row) ∧
    (existsb (has_Id (Id m)) rows = true → length rows1 = length rows) ∧
    (existsb (has_Id (Id m)) rows = false → rows1 = rows ++ [row]) ∧
    (∀ i, i ≠ Id m → List.filter (has_Id i) rows1 = List.filter (has_Id i) rows).
Proof.
  intros Hplain Hp Hcalm Hid. unfold Save.
  rewrite (bind_Done _ _ _ _ _ (stamp_through_pointer _ _ _ Hp)).
  set (row := stamped (now w) m).
  assert (Id row = Id m) as Hrow by apply stamped_Id.
  destruct (gorm_Save_calm (DB dao) p row _ rows (stamped_lookup p m (now w) w Hp)
              (calm_set_heap _ _ _ Hcalm)) as (n & w1 & Hrun & Hc1 & _).
  { by rewrite Hrow. }
  rewrite (bind_Done _ _ _ _ _ Hrun).
  exists row, (saved row rows), w1. split; [done|]. split; [done|]. split; [done|].
  unfold saved in *. apply Z.eqb_neq in Hid. rewrite Hrow, Hid in *.
  split; [|split; [|split]].
  - pose proof (GetModel_calm dao (Id m) w1 _ Hplain Hc1) as Hget.
    destruct (saved_first row rows) as (rest & Hfirst). rewrite Hrow in Hfirst.
    rewrite Hfirst in Hget. destruct Hget as (model & w2 & Hget & Hheap & _). eauto.
  - intros ->. unfold replaced. apply length_map.
  - by intros ->.
  - intros i Hi. destruct (existsb (has_Id (Id m)) rows).
    + apply replaced_other_keys. by rewrite Hrow.
    + rewrite List.filter_app. simpl.
      assert (has_Id i row = false) as ->.
      { unfold has_Id. apply Z.eqb_neq. congruence. }
      apply app_nil_r.
Qed.





(** *** Delete and the queries *)

Lemma gorm_Delete_calm d p v w rows cond :
  heap w !! p = Some v → calm w rows → where_ d = Some cond →
  ∃ w', gorm_Delete d p w = Done (affected (count_rows cond rows)) w' ∧
    calm w' (List.filter (λ r, negb (cond r)) rows) ∧ heap w' = heap w.
Proof.
  intros Hp Hcalm Hw. unfold gorm_Delete.
  rewrite (bind_Done _ _ _ _ _ (load_eq _ _ _ Hp)). rewrite Hw.
  destruct (on_statement_calm (delete_rows cond) w rows Hcalm) as (w1 & Hrun & Hc1 & Hh1 & _).
  rewrite (bind_Done _ _ _ _ _ Hrun), finish_eq.
  eexists. split; [done|]. split; [by apply calm_log|done].
Qed.

Lemma DeleteCondition_calm dao (cond : T → bool) w rows :
  unscoped (DB dao) → calm w rows →
  ∃ w', DeleteCondition dao cond w = Done None w' ∧
    calm w' (List.filter (λ r, negb (cond r)) rows).
Proof.
  intros (Hw & _ & _) Hcalm. unfold DeleteCondition.
  set (w0 := set_heap (heap w ++ [new]) w).
  assert (alloc new w = Done (length (heap w)) w0) as Halloc by done.
  assert (heap w0 !! length (heap w) = Some new) as Hp by (by apply list_lookup_middle).
  rewrite (bind_Done _ _ _ _ _ Halloc).
  destruct (gorm_Delete_calm (Where (DB dao) cond) _ _ w0 rows cond Hp
              (calm_set_heap _ _ _ Hcalm)) as (w1 & Hrun & Hc1 & _).
  { unfold Where. simpl. by rewrite Hw. }
  rewrite (bind_Done _ _ _ _ _ Hrun). eauto.
Qed.

Lemma gorm_Find_slice_calm d w rows :
  calm w rows →
  ∃ w', gorm_Find_slice d make_slice w
        = Done (affected (Z.of_nat (length
                  (apply_limit (limit d) (apply_offset (offset d) (matching d rows))))),
                Slice (apply_limit (limit d) (apply_offset (offset d) (matching d rows)))) w' ∧
        calm w' rows.
Proof.
  intros Hcalm. unfold gorm_Find_slice.
  destruct (on_statement_calm (select_rows d) w rows Hcalm) as (w1 & Hrun & Hc1 & _).
  rewrite (bind_Done _ _ _ _ _ Hrun), (bind_Done _ _ _ _ _ (finish_eq _ _ _)).
  eexists. split; [done|]. by apply calm_log.
Qed.

Lemma list_query_calm d w rows :
  calm w rows →
  ∃ w', (let list := make_slice in
         let! (result, list) := gorm_Find_slice d list in
         if is_failure result || (RowsAffected result =? 0)
         then ret (list, Error result)
         else ret (list, None)) w
        = Done (Slice (apply_limit (limit d) (apply_offset (offset d) (matching d rows))),
                None) w' ∧
        calm w' rows.
Proof.
  intros Hcalm. destruct (gorm_Find_slice_calm d w rows Hcalm) as (w' & Hrun & Hc').
  exists w'. cbv zeta. rewrite (bind_Done _ _ _ _ _ Hrun). simpl.
  by destruct (_ =? 0).
Qed.

Lemma GetConditions_calm dao (query : T → bool) w rows :
  unscoped (DB dao) → calm w rows →
  ∃ w', GetConditions dao query w = Done (Slice (List.filter query rows), None) w' ∧
        calm w' rows.
Proof.
  intros Hplain Hcalm.
  destruct (list_query_calm (Where (DB dao) query) w _ Hcalm) as (w1 & Hq & Hc1).
  rewrite (selection_by _ _ _ Hplain) in Hq. exists w1. split; [exact Hq|done].
Qed.

Lemma GetAll_calm dao w rows :
  unscoped (DB dao) → calm w rows →
  ∃ w', GetAll dao w = Done (Slice rows, None) w' ∧ calm w' rows.
Proof.
  intros (Hw & Hl & Ho) Hcalm.
  destruct (list_query_calm (DB dao) w _ Hcalm) as (w1 & Hq & Hc1).
  unfold matching in Hq. rewrite Hw, Hl, Ho in Hq. exists w1. split; [exact Hq|done].
Qed.

Lemma gorm_Count_calm d w rows :
  calm w rows →
  ∃ w', gorm_Count d 0 w = Done (affected 1, Z.of_nat (length (matching d rows))) w' ∧
        calm w' rows ∧ heap w' = heap w.
Proof.
  intros Hcalm. unfold gorm_Count.
  destruct (on_statement_calm (count_matching d) w rows Hcalm) as (w1 & Hrun & Hc1 & Hh1 & _).
  rewrite (bind_Done _ _ _ _ _ Hrun), (bind_Done _ _ _ _ _ (finish_eq _ _ _)).
  eexists. split; [done|]. split; [by apply calm_log|done].
Qed.

Lemma GetCount_calm dao (query : T → bool) w rows :
  unscoped (DB dao) → calm w rows →
  ∃ w', GetCount dao query w = Done (Z.of_nat (length (List.filter query rows))) w' ∧
        calm w' rows.
Proof.
  intros (Hw & _ & _) Hcalm. unfold GetCount.
  set (w0 := set_heap (heap w ++ [new]) w).
  assert (alloc new w = Done (length (heap w)) w0) as Halloc by done.
  rewrite (bind_Done _ _ _ _ _ Halloc). cbv zeta.
  destruct (gorm_Count_calm (Where (Model (DB dao) (length (heap w))) query) w0 rows
              (calm_set_heap _ _ _ Hcalm)) as (w1 & Hrun & Hc1 & _).
  rewrite (bind_Done _ _ _ _ _ Hrun). exists w1. split; [|done].
  unfold matching, Where, Model. simpl. by rewrite Hw.
Qed.

Lemma CheckExist_calm dao id w rows :
  unscoped (DB dao) → calm w rows →
  ∃ w', CheckExist dao id w = Done (existsb (has_Id id) rows) w' ∧ calm w' rows.
Proof.
  intros Hplain Hcalm. unfold CheckExist.
  set (w0 := set_heap (heap w ++ [new]) w).
  assert (alloc new w = Done (length (heap w)) w0) as Halloc by done.
  assert (heap w0 !! length (heap w) = Some new) as Hp by (by apply list_lookup_middle).
  rewrite (bind_Done _ _ _ _ _ Halloc).
  pose proof (gorm_Find_calm (Where (DB dao) (has_Id id)) _ _ w0 rows Hp
                (calm_set_heap _ _ _ Hcalm)) as Hfind.
  rewrite (selection_by _ _ _ Hplain) in Hfind.
  destruct (existsb (has_Id id) rows) eqn:Hex.
  - destruct (filter_some_match _ _ Hex) as (row & rest & Hsel). rewrite Hsel in Hfind.
    destruct Hfind as (w' & Hrun & Hc' & _). rewrite (bind_Done _ _ _ _ _ Hrun). eauto.
  - rewrite (filter_no_match _ _ Hex) in Hfind.
    destruct Hfind as (w' & Hrun & Hc' & _). rewrite (bind_Done _ _ _ _ _ Hrun). eauto.
Qed.

Lemma filter_negb_same (cond : T → bool) rows :
  List.filter cond (List.filter (λ r, negb (cond r)) rows) = [].
Proof.
  induction rows as [|r rows IH]; simpl; [done|].
  destruct (cond r) eqn:Hc; simpl; [done|]. by rewrite Hc.
Qed.

Lemma filter_other_key i j rows :
  i ≠ j →
  List.filter (has_Id i) (List.filter (λ r, negb (has_Id j r)) rows)
  = List.filter (has_Id i) rows.
Proof.
  intros Hne. induction rows as [|r rows IH]; simpl; [done|].
  destruct (has_Id j r) eqn:Hj; simpl.
  - apply has_Id_spec in Hj.
    assert (has_Id i r = false) as ->; [|done].
    unfold has_Id. apply Z.eqb_neq. congruence.
  - destruct (has_Id i r); [by rewrite IH|done].
Qed.

(** X6. [Delete] then look up: in a calm world [Delete] returns nil and
    removes exactly the rows with the id; after it [GetModel] for that id
    returns nil without an error and [CheckExist] answers false, while
    the rows of every other key are as they were. *)
Theorem Delete_then_lookup dao id w rows :
  unscoped (DB dao) → calm w rows →
  ∃ rows1 w1, Delete dao id w = Done None w1 ∧ calm w1 rows1 ∧
    rows1 = List.filter (λ r, negb (has_Id id r)) rows ∧
    (∃ w2, GetModel dao id w1 = Done (None, None) w2) ∧
    (∃ w2, CheckExist dao id w1 = Done false w2) ∧
    (∀ i, i ≠ id → List.filter (has_Id i) rows1 = List.filter (has_Id i) rows).
Proof.
  intros Hplain Hcalm.
  destruct (DeleteCondition_calm dao (has_Id id) w rows Hplain Hcalm) as (w1 & Hrun & Hc1).
  exists (List.filter (λ r, negb (has_Id id r)) rows), w1.
  split; [exact Hrun|]. split; [done|]. split; [done|]. split; [|split].
  - pose proof (GetModel_calm dao id w1 _ Hplain Hc1) as Hget.
    rewrite filter_negb_same in Hget. destruct Hget as (w2 & Hget & _). eauto.
  - destruct (CheckExist_calm dao id w1 _ Hplain Hc1) as (w2 & Hchk & _).
    exists w2. rewrite Hchk. f_equal.
    destruct (existsb _ _) eqn:Hex; [|done].
    apply filter_some_match in Hex as (row & rest & Hsel).
    by rewrite filter_negb_same in Hsel.
  - intros i Hi. by apply filter_other_key.
Qed.

(** X7. [DeleteCondition] then query: in a calm world it returns nil and
    leaves the rows that do not satisfy the condition, in their order;
    after it [GetConditions] with the same condition returns the empty
    slice and [GetCount] returns zero. *)
Theorem DeleteCondition_then_queries dao (condition : T → bool) w rows :
  unscoped (DB dao) → calm w rows →
  ∃ w1, DeleteCondition dao condition w = Done None w1 ∧
    calm w1 (List.filter (λ r, negb (condition r)) rows) ∧
    (∃ w2, GetConditions dao condition w1 = Done (Slice [], None) w2) ∧
    (∃ w2, GetCount dao condition w1 = Done 0 w2).
Proof.
  intros Hplain Hcalm.
  destruct (DeleteCondition_calm dao condition w rows Hplain Hcalm) as (w1 & Hrun & Hc1).
  exists w1. split; [done|]. split; [done|]. split.
  - destruct (GetConditions_calm dao condition w1 _ Hplain Hc1) as (w2 & Hq & _).
    exists w2. by rewrite Hq, filter_negb_same.
  - destruct (GetCount_calm dao condition w1 _ Hplain Hc1) as (w2 & Hq & _).
    exists w2. by rewrite Hq, filter_negb_same.
Qed.

Lemma gorm_Count_runs d w :
  ∃ res n w', gorm_Count d 0 w = Done (res, n) w' ∧
    trace (session w') = trace (session w) ++ [Exec CallFind res] ∧
    (Error res ≠ None → n = 0).
Proof.
  unfold gorm_Count. rewrite (bind_Done _ _ _ _ _ (on_session_eq _ _)).
  destruct (statement _ (session w)).1 as [e|[k n]] eqn:Hst;
    rewrite (bind_Done _ _ _ _ _ (finish_eq _ _ _));
    eexists _, _, _; (split; [done|]); simpl; rewrite statement_trace; done.
Qed.

Lemma GetCount_runs dao (query : T → bool) w :
  ∃ res n w', GetCount dao query w = Done n w' ∧
    trace (session w') = trace (session w) ++ [Exec CallFind res] ∧
    (Error res ≠ None → n = 0).
Proof.
  unfold GetCount.
  set (w0 := set_heap (heap w ++ [new]) w).
  assert (alloc new w = Done (length (heap w)) w0) as Halloc by done.
  rewrite (bind_Done _ _ _ _ _ Halloc). cbv zeta.
  destruct (gorm_Count_runs (Where (Model (DB dao) (length (heap w))) query) w0)
    as (res & n & w1 & Hrun & Htr & Herr).
  rewrite (bind_Done _ _ _ _ _ Hrun). by exists res, n, w1.
Qed.

(** X8. [GetCount], [GetConditions] and [GetAll] agree: in a calm world
    [GetConditions] returns the rows that satisfy the predicate, in
    storage order, [GetAll] returns all rows, and [GetCount] returns the
    length of what [GetConditions] returns; none of them changes the
    table.  In any world, a count whose query fails reads as zero, with
    no error to tell it from an empty result. *)
Theorem GetCount_agrees_with_GetConditions dao (query : T → bool) w rows :
  unscoped (DB dao) → calm w rows →
  (∃ w1, GetConditions dao query w = Done (Slice (List.filter query rows), None) w1 ∧
         calm w1 rows) ∧
  (∃ w1, GetAll dao w = Done (Slice rows, None) w1 ∧ calm w1 rows) ∧
  (∃ w1, GetCount dao query w = Done (Z.of_nat (length (List.filter query rows))) w1 ∧
         calm w1 rows) ∧
  (∀ w0, ∃ res n w1, GetCount dao query w0 = Done n w1 ∧
     trace (session w1) = trace (session w0) ++ [Exec CallFind res] ∧
     (Error res ≠ None → n = 0)).
Proof.
  intros Hplain Hcalm. split; [|split; [|split]].
  - by apply GetConditions_calm.
  - by apply GetAll_calm.
  - by apply GetCount_calm.
  - intros w0. apply GetCount_runs.
Qed.

(** *** Queries side by side *)

Lemma gorm_Find_eq d p v w :
  heap w !! p = Some v →
  gorm_Find d p w
  = match (statement (select_rows d) (session w)).1 with
    | inl e =>
      Done (failed e)
           (set_session (log (Exec CallFind (failed e))
                             (statement (select_rows d) (session w)).2) w)
    | inr (_, []) =>
      Done (affected 0)
           (set_session (log (Exec CallFind (affected 0))
                             (statement (select_rows d) (session w)).2) w)
    | inr (_, row :: _) =>
      Done (affected 1)
           (set_session (log (Exec CallFind (affected 1))
                             (statement (select_rows d) (session w)).2)
                        (set_heap (<[p := row]> (heap w)) w))
    end.
Proof.
  intros Hp. unfold gorm_Find.
  rewrite (bind_Done _ _ _ _ _ (load_eq _ _ _ Hp)).
  rewrite (bind_Done _ _ _ _ _ (on_session_eq _ _)).
  destruct (statement (select_rows d) (session w)).1 as [e|[n [|row found]]]; try done.
  assert (heap (set_session (statement (select_rows d) (session w)).2 w) !! p = Some v)
    as Hp' by done.
  by rewrite (bind_Done _ _ _ _ _ (store_eq _ _ row _ Hp')).
Qed.


(** X9. [CheckExist] and [GetModel] ask the same question: from the same
    world, [CheckExist] answers true exactly when [GetModel] returns a
    model; when the query fails [GetModel] returns the error and
    [CheckExist] answers false, as it does for an absent record. *)
Theorem CheckExist_agrees_with_GetModel dao id w :
  ∃ b r err w', CheckExist dao id w = Done b w' ∧
    GetModel dao id w = Done (r, err) w' ∧
    (b = true ↔ r ≠ None) ∧
    (err ≠ None → b = false ∧ r = None).
Proof.
  unfold CheckExist, GetModel.
  set (w0 := set_heap (heap w ++ [new]) w).
  assert (alloc new w = Done (length (heap w)) w0) as Halloc by done.
  assert (heap w0 !! length (heap w) = Some new) as Hp by (by apply list_lookup_middle).
  rewrite !(bind_Done _ _ _ _ _ Halloc).
  pose proof (gorm_Find_eq (Where (DB dao) (has_Id id)) _ _ w0 Hp) as Hfind.
  destruct (statement _ (session w0)).1 as [e|[n [|row found]]];
    rewrite !(bind_Done _ _ _ _ _ Hfind); simpl;
    eexists _, _, _, _; (split; [done|]); (split; [done|]); split; try done.
Qed.


(** *** Pages *)

Lemma int_of_uint64_small x : 0 ≤ x < 2 ^ 63 → int_of_uint64 x = x.
Proof.
  intros Hx. unfold int_of_uint64. rewrite Z.mod_small by lia.
  destruct (x <? 2 ^ 63) eqn:Hlt; [done|]. apply Z.ltb_ge in Hlt. lia.
Qed.

Lemma take_plus (a b : nat) rows :
  take (a + b) rows = take a rows ++ take b (drop a rows).
Proof.
  revert rows. induction a as [|a IH]; intros [|r rows]; simpl; try done.
  - by rewrite take_nil.
  - by rewrite IH.
Qed.

Lemma pages_cover (size : nat) (n : nat) rows :
  concat ((λ i, take size (drop (i * size) rows)) <$> seq 0 n) = take (n * size) rows.
Proof.
  induction n as [|n IH]; [done|].
  rewrite seq_S, fmap_app, concat_app, IH.
  replace (S n * size)%nat with (n * size + size)%nat by lia.
  rewrite take_plus. f_equal. cbn [fmap list_fmap concat Nat.add]. apply app_nil_r.
Qed.

(** X11. Paging with [GetList]: in a calm world, for a page size
    [size > 0], the call at offset [i * size] returns the [i]-th run of
    [size] rows in storage order, without an error and without changing
    the table; the pages up to the end of the table, one after the other,
    are the table, each row once; and a page past the end is the empty
    slice. *)
Theorem GetList_pages dao size w rows :
  unscoped (DB dao) → calm w rows → 0 < size →
  (∀ i : nat, Z.of_nat i * size < 2 ^ 63 →
     ∃ w1, GetList dao (Z.of_nat i * size) size w = Done (Slice (page size i rows), None) w1 ∧
           calm w1 rows) ∧
  (∀ n : nat, (length rows ≤ n * Z.to_nat size)%nat →
     concat ((λ i, page size i rows) <$> seq 0 n) = rows) ∧
  (∀ i : nat, (length rows ≤ i * Z.to_nat size)%nat → page size i rows = []).
Proof.
  intros (Hw & Hl & Ho) Hcalm Hsize. split; [|split].
  - intros i Hi.
    destruct (list_query_calm (Offset (Limit (DB dao) size) (int_of_uint64 (Z.of_nat i * size)))
                w _ Hcalm) as (w1 & Hq & Hc1).
    exists w1. split; [|done].
    transitivity (Done (A := slice T * option error)
                    (Slice (apply_limit (limit (Offset (Limit (DB dao) size)
                                                  (int_of_uint64 (Z.of_nat i * size))))
                              (apply_offset (offset (Offset (Limit (DB dao) size)
                                                       (int_of_uint64 (Z.of_nat i * size))))
                                 (matching (Offset (Limit (DB dao) size)
                                              (int_of_uint64 (Z.of_nat i * size))) rows))),
                     None) w1); [exact Hq|].
    f_equal. f_equal. f_equal.
    unfold matching, Offset, Limit, page. simpl. rewrite Hw.
    rewrite int_of_uint64_small by lia.
    assert ((0 <=? size) = true) as -> by (apply Z.leb_le; lia).
    f_equal.
    assert (Z.to_nat (Z.of_nat i * size) = (i * Z.to_nat size)%nat) as Hoff.
    { rewrite Z2Nat.inj_mul by lia. by rewrite Nat2Z.id. }
    destruct (0 <? Z.of_nat i * size) eqn:Hpos; [by rewrite Hoff|].
    apply Z.ltb_ge in Hpos.
    assert (Z.of_nat i = 0) as Hzero by nia.
    assert (i = 0%nat) as -> by lia. by rewrite Nat.mul_0_l.
  - intros n Hn. unfold page.
    rewrite (pages_cover (Z.to_nat size) n rows). by apply take_ge.
  - intros i Hi. unfold page. rewrite drop_ge by done. apply take_nil.
Qed.

End CalmFacts.

(** ** More on the connection factory *)

Section FactoryMore.
Import Factory.

Lemma contains_append sep a b :
  contains sep (a +:+ b) = contains sep a || contains sep b.
Proof.
  induction a as [|c a IH]; simpl; [done|]. rewrite IH. by destruct (Ascii.eqb c sep).
Qed.

Lemma strings_Split_whole s sep : contains sep s = false → strings_Split s sep = [s].
Proof.
  induction s as [|c s IH]; simpl; [done|].
  destruct (Ascii.eqb c sep); simpl; [done|]. intros Hs. by rewrite IH.
Qed.

(** Splitting cuts at the first separator. *)
Lemma strings_Split_first a b sep :
  contains sep a = false →
  strings_Split (a +:+ String sep b) sep = a :: strings_Split b sep.
Proof.
  induction a as [|c a IH]; simpl.
  - intros _. by rewrite Ascii.eqb_refl.
  - destruct (Ascii.eqb c sep); simpl; [done|]. intros Ha. by rewrite IH.
Qed.

(** The first piece of a split has no separator in it. *)
Lemma strings_Split_head s sep piece pieces :
  strings_Split s sep = piece :: pieces → contains sep piece = false.
Proof.
  revert piece pieces. induction s as [|c s IH]; simpl; intros piece pieces.
  - by intros [= <- <-].
  - destruct (Ascii.eqb c sep) eqn:Hc; [by intros [= <- <-]|].
    destruct (strings_Split_nonempty s sep) as (piece' & pieces' & Hsp). rewrite Hsp.
    intros [= <- <-]. simpl. rewrite Hc. simpl. by eapply IH.
Qed.

Ltac run_factory :=
  unfold connect, bind, index, ret, throw, effect, gorm_Open; simpl.

Lemma NewDb_after_load env section setting effs0 effs1 :
  load_setting env section effs0 = Done (Some setting) effs1 →
  NewDb env section effs0
  = match connect env setting effs1 with
    | Done db effs => Done (Some db) effs
    | Panicked q effs => Panicked q effs
    end.
Proof. intros Hload. unfold NewDb. by rewrite (bind_Done _ _ _ _ _ Hload). Qed.

(** X12. [NewDb] on a sqlite string "sqlite|<path>&<mode>": the directory
    of the resolved path is created first and a failure there aborts
    before anything is opened; then the file is opened and a failure
    aborts; then the journal mode is set by one PRAGMA statement, unless
    the mode is empty, in which case no statement is sent; the connection
    returned is the sqlite one to the resolved path. *)
Theorem NewDb_sqlite env section setting path mode effs0 effs1 :
  load_setting env section effs0 = Done (Some setting) effs1 →
  Connect setting = "sqlite|" +:+ path +:+ "&" +:+ mode →
  contains "|" path = false → contains "&" path = false →
  contains "|" mode = false → contains "&" mode = false →
  let file := GetFullPath env path in
  let gc := {| SingularTable := true;
               NamingNoLowerCase := NoLowerCase (Config setting);
               SkipDefaultTx := SkipDefaultTransaction (Config setting);
               LogModeInfo := OpenLog (Config setting) |} in
  NewDb env section effs0
  = match CreateDirectory_fails env file with
    | Some err => Panicked (PanicError err) (effs1 ++ [CreateDirectory file])
    | None =>
      match Open_fails env sqlite file with
      | Some err =>
        Panicked (PanicError err) (effs1 ++ [CreateDirectory file; Open sqlite file])
      | None =>
        Done (Some {| dialect := sqlite; dsn := file; gc := gc |})
             (effs1 ++ [CreateDirectory file; Open sqlite file]
                    ++ (if String.eqb mode "" then []
                        else [ExecSQL ("PRAGMA journal_mode = " +:+ mode +:+ ";")]))
      end
    end.
Proof.
  intros Hload Hspec Hp1 Hp2 Hm1 Hm2 file gc.
  rewrite (NewDb_after_load _ _ _ _ _ Hload).
  assert (strings_Split (Connect setting) "|" = ["sqlite"; path +:+ "&" +:+ mode]) as Hsp.
  { rewrite Hspec.
    change ("sqlite|" +:+ path +:+ "&" +:+ mode)
      with ("sqlite" +:+ String "|" (path +:+ String "&" mode)).
    rewrite strings_Split_first by done. f_equal. apply strings_Split_whole.
    rewrite contains_append, Hp1. simpl. exact Hm1. }
  assert (strings_Split (path +:+ "&" +:+ mode) "&" = [path; mode]) as Hspp.
  { change (path +:+ "&" +:+ mode) with (path +:+ String "&" mode).
    rewrite strings_Split_first by done. f_equal. by apply strings_Split_whole. }
  run_factory. rewrite Hsp. simpl. rewrite Hspp. simpl. fold file.
  destruct (CreateDirectory_fails env file); [done|].
  unfold bind, effect, gorm_Open, throw, ret, index; simpl.
  destruct (Open_fails env sqlite file); simpl; rewrite <- ?app_assoc; [done|].
  destruct (String.eqb mode ""); simpl; rewrite <- ?app_assoc; done.
Qed.

(** X13. [NewDb] on a client/server string "<kind>|<rest>": the one thing
    done is to open the driver of that kind, for sqlserver with
    "sqlserver://" put before the parameter, for mysql and postgres with
    the parameter as it is; a failure to open aborts with the driver's
    error.  The parameter is the text up to the next "|": all of [rest]
    when it has none, and cut short there when it has one. *)
Theorem NewDb_client_server env section setting d rest effs0 effs1 :
  load_setting env section effs0 = Done (Some setting) effs1 →
  Connect setting
  = match d with
    | sqlite => "sqlite" | sqlserver => "sqlserver"
    | mysql => "mysql" | postgres => "postgres"
    end +:+ "|" +:+ rest →
  d ≠ sqlite →
  ∃ param more, strings_Split rest "|" = param :: more ∧
    contains "|" param = false ∧
    (contains "|" rest = false → param = rest) ∧
    let dsn := match d with sqlserver => "sqlserver://" +:+ param | _ => param end in
    let gc := {| SingularTable := true;
                 NamingNoLowerCase := NoLowerCase (Config setting);
                 SkipDefaultTx := SkipDefaultTransaction (Config setting);
                 LogModeInfo := OpenLog (Config setting) |} in
    NewDb env section effs0
    = match Open_fails env d dsn with
      | Some err => Panicked (PanicError err) (effs1 ++ [Open d dsn])
      | None => Done (Some {| dialect := d; dsn := dsn; gc := gc |}) (effs1 ++ [Open d dsn])
      end.
Proof.
  intros Hload Hspec Hd.
  destruct (strings_Split_nonempty rest "|") as (param & more & Hrest).
  exists param, more. split; [done|].
  assert (contains "|" param = false) as Hparam by (by eapply strings_Split_head).
  split; [done|]. split.
  { intros Hnone. rewrite (strings_Split_whole _ _ Hnone) in Hrest. by injection Hrest. }
  rewrite (NewDb_after_load _ _ _ _ _ Hload).
  destruct d; [done| | |].
  - assert (strings_Split (Connect setting) "|" = "sqlserver" :: param :: more) as Hsp.
    { rewrite Hspec. change ("sqlserver" +:+ "|" +:+ rest) with ("sqlserver" +:+ String "|" rest).
      rewrite strings_Split_first by done. by rewrite Hrest. }
    run_factory. rewrite Hsp. simpl.
    by destruct (Open_fails env sqlserver _).
  - assert (strings_Split (Connect setting) "|" = "mysql" :: param :: more) as Hsp.
    { rewrite Hspec. change ("mysql" +:+ "|" +:+ rest) with ("mysql" +:+ String "|" rest).
      rewrite strings_Split_first by done. by rewrite Hrest. }
    run_factory. rewrite Hsp. simpl.
    by destruct (Open_fails env mysql _).
  - assert (strings_Split (Connect setting) "|" = "postgres" :: param :: more) as Hsp.
    { rewrite Hspec. change ("postgres" +:+ "|" +:+ rest) with ("postgres" +:+ String "|" rest).
      rewrite strings_Split_first by done. by rewrite Hrest. }
    run_factory. rewrite Hsp. simpl.
    by destruct (Open_fails env postgres _).
Qed.

(** X14. Where [NewDb] gets its setting, and what a bad one does.  With
    no base configuration it panics at once.  Otherwise the value under
    "<module>.<section>" is used, else the one under "<section>", else
    the built-in default, which is first saved.  A value that cannot be
    unmarshalled makes [NewDb] return nil: no panic, no effect, no
    connection.  A value that cannot be marshalled leaves the setting
    empty, and the empty connection string aborts as an unknown kind. *)
Theorem NewDb_setting_sources env section effs :
  (baseCfg env = None →
   NewDb env section effs
   = Panicked (PanicError
                 (ErrorsNew "base config not set, please call SetBaseConfig first")) effs) ∧
  (∀ name desc version,
     baseCfg env = Some (name, desc, version) →
     let found := match viper_Get env (name +:+ "." +:+ section) with
                  | Some v => Some v
                  | None => viper_Get env section
                  end in
     (found = Some UnmarshalFails → NewDb env section effs = Done None effs) ∧
     (found = Some MarshalFails →
      NewDb env section effs
      = Panicked (PanicError (ErrorsNew "unknown db type")) effs) ∧
     (∀ s, found = Some (Decodes s) →
           load_setting env section effs = Done (Some s) effs) ∧
     (found = None →
      load_setting env section effs
      = Done (Some default_setting) (effs ++ [TrySave "./config.yaml"]))).
Proof.
  split.
  - intros Hbase. unfold NewDb, load_setting, bind, throw. by rewrite Hbase.
  - intros name desc version Hbase found. subst found.
    unfold NewDb, load_setting. rewrite Hbase.
    destruct (viper_Get env (name +:+ "." +:+ section)) as [v|];
      [|destruct (viper_Get env section) as [v|]];
      (split; [|split; [|split]]); try done;
      try (by intros [= ->]); try (by intros s [= ->]).
Qed.

End FactoryMore.

(** ** The base configuration *)

Section SettingFacts.
Import Setting.

(** X15. [initBaseConfig] only ever changes the path of the
    configuration file.  Without a first argument it returns the
    defaults, with "./config.yaml"; with one, it panics when the argument
    is not a JSON object of strings, and otherwise takes the file path
    from its "ConfigPath" entry, if there is one; the connection string
    and the engine options are the built-in ones in every case. *)
Theorem initBaseConfig_only_sets_the_path Args json_Unmarshal :
  match initBaseConfig Args json_Unmarshal () with
  | Done config _ =>
    Connect config = "sqlite|./db/data.db&OFF" ∧
    Config config = {| OpenLog := false; SkipDefaultTransaction := true;
                       NoLowerCase := true |} ∧
    filePath config
    = match Args !! 1%nat with
      | Some arg =>
        match json_Unmarshal arg with
        | inr args => default "./config.yaml" (args !! "ConfigPath")
        | inl _ => "./config.yaml"
        end
      | None => "./config.yaml"
      end
  | Panicked q _ =>
    ∃ arg err, Args !! 1%nat = Some arg ∧ json_Unmarshal arg = inl err ∧ q = PanicError err
  end.
Proof.
  unfold initBaseConfig. case_bool_decide as Hlen.
  - destruct (Args !! 1%nat) as [arg|] eqn:Harg.
    + unfold bind, index, ret, throw. rewrite Harg.
      destruct (json_Unmarshal arg) as [err|args] eqn:Hjson.
      * by exists arg, err.
      * by destruct (args !! "ConfigPath").
    + apply lookup_ge_None in Harg. lia.
  - destruct (Args !! 1%nat) as [arg|] eqn:Harg; [|done].
    apply lookup_lt_Some in Harg. lia.
Qed.

End SettingFacts.

(** ** Batches and construction, continued *)

Section BatchMore.
Context {T : Type} `{!Entity T}.
Implicit Types (w : World T) (s : Session T) (m row elem : T) (rows : list T) (p : ptr).

Abbreviation M := (Run (World T)).


Lemma existsb_append (cond : T → bool) rows row :
  existsb cond (rows ++ [row]) = existsb cond rows || cond row.
Proof. rewrite existsb_app. simpl. by rewrite orb_false_r. Qed.

(** The loop of [CreateList] over models with keys of their own that are
    new to the table and differ from each other. *)
Lemma CreateList_loop_calm tx (list : list T) w rows :
  calm w rows →
  Forall (λ m, Id m ≠ 0 ∧ existsb (has_Id (Id m)) rows = false) list →
  NoDup (Id <$> list) →
  ∃ w', range_loop list (λ elem,
          let! model := alloc elem in
          let! copy := load model in
          let ref := qreflect_New (AnyVal copy) in
          let! _ := stamp ref in
          let! result := gorm_Create tx model in
          ret (Error result)) w = Done None w' ∧
        calm w' (rows ++ list).
Proof.
  revert w rows. induction list as [|m rest IH]; intros w rows Hcalm Hfresh Hnd.
  - exists w. simpl. by rewrite app_nil_r.
  - apply Forall_cons in Hfresh as [[Hid Hm] Hrest].
    rewrite fmap_cons in Hnd. apply NoDup_cons in Hnd as [Hnew Hnd].
    cbn [range_loop].
    pose proof (batch_turn_unstamped (gorm_Create tx) m w) as Hturn.
    assert (heap (set_heap (heap w ++ [m]) w) !! length (heap w) = Some m) as Hp.
    { by apply list_lookup_middle. }
    pose proof (create_as_calm CallCreate _ m _ rows Hp (calm_set_heap _ _ _ Hcalm)) as Hrun.
    assert (inserted m rows = m) as Hins.
    { unfold inserted. apply Z.eqb_neq in Hid. by rewrite Hid. }
    rewrite Hins, Hm in Hrun. destruct Hrun as (w1 & Hrun & Hc1 & _).
    assert ((let! model := alloc m in
             let! copy := load model in
             let ref := qreflect_New (AnyVal copy) in
             let! _ := stamp ref in
             let! result := gorm_Create tx model in
             ret (Error result)) w = Done None w1) as Hbody.
    { rewrite Hturn. unfold gorm_Create. by rewrite (bind_Done _ _ _ _ _ Hrun). }
    rewrite (bind_Done _ _ _ _ _ Hbody).
    destruct (IH w1 (rows ++ [m]) Hc1) as (w' & Hloop & Hc'); [|done|].
    { apply Forall_forall. intros x Hx. rewrite Forall_forall in Hrest.
      destruct (Hrest x Hx) as [Hxid Hxnew]. split; [done|].
      rewrite existsb_append, Hxnew. simpl. unfold has_Id. apply Z.eqb_neq.
      intros Heq. apply Hnew. rewrite Heq. apply list_elem_of_fmap. by exists x. }
    exists w'. split; [done|]. by rewrite <- app_assoc in Hc'.
Qed.

(** X17. [CreateList] on models that bring keys of their own, new to the
    table and different from each other: in a calm world it returns nil
    and the table is the old one followed by the models in their order,
    each exactly as it was given. *)
Theorem CreateList_appends_as_given dao (list : list T) w rows :
  calm w rows →
  Forall (λ m, Id m ≠ 0 ∧ existsb (has_Id (Id m)) rows = false) list →
  NoDup (Id <$> list) →
  ∃ w', CreateList dao list w = Done None w' ∧ calm w' (rows ++ list).
Proof.
  intros Hcalm Hfresh Hnd. unfold CreateList.
  destruct (CreateList_loop_calm (begin_tx (DB dao)) list
              (set_session (log Begin (session w)) w) rows (calm_log _ _ _ Hcalm) Hfresh Hnd)
    as (w1 & Hloop & Hc1).
  rewrite (bind_Done _ _ _ _ _ (gorm_Transaction_eq _ _ _ _ _ Hloop)).
  eexists. split; [done|]. by apply calm_log.
Qed.

(** X18. On a session that names tables as their types are named:
    after [NewDao] has returned a repository the table of [T] exists, and
    the repository holds the handle given; the rows of a table that was
    there are untouched and a table that was not is empty.  Constructing
    again from the world left behind, when the probe's query goes
    through, only probes: it returns a repository too and changes no
    table. *)
Theorem NewDao_leaves_table_ready d w dao w1 :
  (∀ name, TableName (session w) name = name) →
  NewDao d w = Done (Some dao) w1 →
  DB dao = d ∧
  tables (session w1) !! TypeName
  = Some (default [] (tables (session w) !! TypeName)) ∧
  (quiet (session w1) = true →
   ∃ w2, NewDao d w1 = Done (Some dao) w2 ∧
         trace (session w2) = trace (session w1) ++ [Probe TypeName true] ∧
         tables (session w2) = tables (session w1)).
Proof.
  intros Hid Hrun.
  destruct (NewDao_runs d w) as (r & w' & Hrun' & Hnaming & Hcase).
  rewrite Hrun in Hrun'. injection Hrun' as <- <-.
  assert (dao = {| db := d |} ∧
          tables (session w1) !! TypeName
          = Some (default [] (tables (session w) !! TypeName))) as [-> Htab].
  { destruct (probe TypeName (session w)).1 eqn:Hprobe.
    - destruct Hcase as ([= ->] & _ & ->). split; [done|].
      apply probe_sound in Hprobe as (k & [rows Hk] & Heq).
      rewrite Hid in Heq. subst k. by rewrite Hk.
    - destruct Hcase as (res & _ & Hnil & Hok & _).
      destruct (Error res) as [e|] eqn:Hres.
      { assert (Some dao = None) as Habs by (by apply Hnil). done. }
      destruct (Hok eq_refl) as [[= ->] ->]. split; [done|].
      destruct (tables (session w) !! TypeName) as [rows|] eqn:Hrows; simpl.
      + done.
      + by rewrite lookup_insert_eq. }
  split; [done|]. split; [done|]. intros Hq.
  destruct (NewDao_runs d w1) as (r2 & w2 & Hrun2 & _ & Hcase2).
  assert ((probe TypeName (session w1)).1 = true) as Hprobe.
  { apply probe_exact; [done| |by rewrite Htab].
    intros name. by rewrite Hnaming. }
  rewrite Hprobe in Hcase2. destruct Hcase2 as (-> & Htr & Hsame). eauto.
Qed.

End BatchMore.

(** ** The further statements at the sample data *)

Lemma sample_world_calm : calm Sample.world [].
Proof. split; reflexivity. Qed.

Lemma sample_stocked_calm : calm Sample.stocked [Sample.unset; Sample.dated].
Proof. split; reflexivity. Qed.

Lemma sample_dao_unscoped : unscoped (DB Sample.dao).
Proof. repeat split. Qed.

Lemma writes_keep_keys_unique_witness :
  EntityLaws DbSimple.t ∧
  table_has unique_keys Sample.stocked ∧
  table_has unique_keys (final (SaveList Sample.dao [Sample.dated; Sample.dated] Sample.stocked)).
Proof.
  assert (table_has unique_keys Sample.stocked) as Hunique.
  { intros rows [= <-]. unfold unique_keys. simpl.
    apply NoDup_cons. split; [|apply NoDup_singleton].
    intros Hin. apply list_elem_of_singleton in Hin. discriminate Hin. }
  split; [exact DbSimple_EntityLaws|]. split; [exact Hunique|].
  exact (proj1 (proj2 (proj2 (proj2 (proj2 (proj2
           (writes_keep_keys_unique Sample.dao 0%nat [Sample.dated; Sample.dated] 0
              (λ _, true)))))))
           Sample.stocked Hunique).
Defined.

Lemma Create_then_GetModel_witness :
  heap Sample.world !! 0%nat = Some Sample.unset ∧
  (Id Sample.unset = 0 ∨ existsb (has_Id (Id Sample.unset)) [] = false) ∧
  ∃ row w1, Create Sample.dao 0%nat Sample.world = Done None w1 ∧
            heap w1 !! 0%nat = Some row ∧
            LastTime row = Sample.clock.
Proof.
  split; [reflexivity|]. split; [right; reflexivity|].
  destruct (Create_then_GetModel Sample.dao 0%nat Sample.unset Sample.world []
              sample_dao_unscoped eq_refl sample_world_calm (or_intror eq_refl))
    as (row & w1 & Hrun & _ & _ & Hheap & _ & Htime & _).
  exists row, w1. split; [exact Hrun|]. split; [exact Hheap|exact Htime].
Defined.

Lemma Create_on_taken_key_witness :
  Id Sample.unset ≠ 0 ∧
  existsb (has_Id (Id Sample.unset)) [Sample.unset; Sample.dated] = true ∧
  ∃ w1, Create Sample.dao 0%nat Sample.stocked
        = Done (Some (LibError "UNIQUE constraint failed")) w1 ∧
        calm w1 [Sample.unset; Sample.dated].
Proof.
  assert (Id Sample.unset ≠ 0) as Hid by (intros Hz; discriminate Hz).
  split; [exact Hid|]. split; [reflexivity|].
  destruct (Create_on_taken_key Sample.dao 0%nat Sample.unset Sample.stocked
              [Sample.unset; Sample.dated] eq_refl sample_stocked_calm Hid eq_refl)
    as (w1 & Hrun & Hcalm & _).
  exists w1. split; [exact Hrun|exact Hcalm].
Defined.

Lemma Save_then_GetModel_witness :
  Id Sample.unset ≠ 0 ∧
  ∃ row w1, Save Sample.dao 0%nat Sample.stocked = Done None w1 ∧
    ∃ model w2, GetModel Sample.dao (Id Sample.unset) w1 = Done (Some model, None) w2 ∧
                heap w2 !! model = Some row.
Proof.
  assert (Id Sample.unset ≠ 0) as Hid by (intros Hz; discriminate Hz).
  split; [exact Hid|].
  destruct (Save_then_GetModel Sample.dao 0%nat Sample.unset Sample.stocked
              [Sample.unset; Sample.dated] sample_dao_unscoped eq_refl
              sample_stocked_calm Hid)
    as (row & rows1 & w1 & Hrun & _ & _ & Hget & _).
  exists row, w1. split; [exact Hrun|exact Hget].
Defined.


Lemma Delete_then_lookup_witness :
  unscoped (DB Sample.dao) ∧ calm Sample.stocked [Sample.unset; Sample.dated] ∧
  ∃ rows1 w1, Delete Sample.dao 1 Sample.stocked = Done None w1 ∧ calm w1 rows1 ∧
              ∃ w2, GetModel Sample.dao 1 w1 = Done (None, None) w2.
Proof.
  split; [exact sample_dao_unscoped|]. split; [exact sample_stocked_calm|].
  destruct (Delete_then_lookup Sample.dao 1 Sample.stocked [Sample.unset; Sample.dated]
              sample_dao_unscoped sample_stocked_calm)
    as (rows1 & w1 & Hrun & Hcalm & _ & Hget & _).
  exists rows1, w1. split; [exact Hrun|]. split; [exact Hcalm|exact Hget].
Defined.

Lemma DeleteCondition_then_queries_witness :
  unscoped (DB Sample.dao) ∧ calm Sample.stocked [Sample.unset; Sample.dated] ∧
  ∃ w1, DeleteCondition Sample.dao (has_Id 2) Sample.stocked = Done None w1 ∧
        ∃ w2, GetCount Sample.dao (has_Id 2) w1 = Done 0 w2.
Proof.
  split; [exact sample_dao_unscoped|]. split; [exact sample_stocked_calm|].
  destruct (DeleteCondition_then_queries Sample.dao (has_Id 2) Sample.stocked
              [Sample.unset; Sample.dated] sample_dao_unscoped sample_stocked_calm)
    as (w1 & Hrun & _ & _ & Hcount).
  exists w1. split; [exact Hrun|exact Hcount].
Defined.

Lemma GetCount_agrees_with_GetConditions_witness :
  unscoped (DB Sample.dao) ∧ calm Sample.stocked [Sample.unset; Sample.dated] ∧
  ∃ w1, GetCount Sample.dao (has_Id 2) Sample.stocked
        = Done (Z.of_nat (length (List.filter (has_Id 2) [Sample.unset; Sample.dated]))) w1.
Proof.
  split; [exact sample_dao_unscoped|]. split; [exact sample_stocked_calm|].
  destruct (proj1 (proj2 (proj2
             (GetCount_agrees_with_GetConditions Sample.dao (has_Id 2) Sample.stocked
                [Sample.unset; Sample.dated] sample_dao_unscoped sample_stocked_calm))))
    as (w1 & Hrun & _).
  exists w1. exact Hrun.
Defined.

Lemma GetList_pages_witness :
  unscoped (DB Sample.dao) ∧ calm Sample.stocked [Sample.unset; Sample.dated] ∧ 0 < 1 ∧
  Z.of_nat 1 * 1 < 2 ^ 63 ∧
  ∃ w1, GetList Sample.dao (Z.of_nat 1 * 1) 1 Sample.stocked
        = Done (Slice (page 1 1 [Sample.unset; Sample.dated]), None) w1.
Proof.
  split; [exact sample_dao_unscoped|]. split; [exact sample_stocked_calm|].
  split; [reflexivity|]. split; [reflexivity|].
  destruct (proj1 (GetList_pages Sample.dao 1 Sample.stocked [Sample.unset; Sample.dated]
                     sample_dao_unscoped sample_stocked_calm eq_refl) 1%nat eq_refl)
    as (w1 & Hrun & _).
  exists w1. exact Hrun.
Defined.

Lemma NewDb_sqlite_witness :
  Factory.load_setting (Sample.env "sqlite|./db/data.db&WAL") "db" []
  = Done (Some (Sample.setting "sqlite|./db/data.db&WAL")) [] ∧
  Factory.contains "|" "./db/data.db" = false ∧ Factory.contains "&" "./db/data.db" = false ∧
  Factory.contains "|" "WAL" = false ∧ Factory.contains "&" "WAL" = false ∧
  Factory.NewDb (Sample.env "sqlite|./db/data.db&WAL") "db" []
  = Done (Some {| Factory.dialect := Factory.sqlite; Factory.dsn := "./db/data.db";
                  Factory.gc := {| Factory.SingularTable := true;
                                   Factory.NamingNoLowerCase := true;
                                   Factory.SkipDefaultTx := true;
                                   Factory.LogModeInfo := false |} |})
         [Factory.CreateDirectory "./db/data.db";
          Factory.Open Factory.sqlite "./db/data.db";
          Factory.ExecSQL "PRAGMA journal_mode = WAL;"].
Proof.
  split; [reflexivity|]. split; [reflexivity|]. split; [reflexivity|].
  split; [reflexivity|]. split; [reflexivity|].
  exact (NewDb_sqlite (Sample.env "sqlite|./db/data.db&WAL") "db"
           (Sample.setting "sqlite|./db/data.db&WAL") "./db/data.db" "WAL" [] []
           eq_refl eq_refl eq_refl eq_refl eq_refl eq_refl).
Defined.

Lemma NewDb_client_server_witness :
  Factory.load_setting (Sample.env "mysql|user:p|w@tcp(db)/app") "db" []
  = Done (Some (Sample.setting "mysql|user:p|w@tcp(db)/app")) [] ∧
  Factory.mysql ≠ Factory.sqlite ∧
  ∃ param more, strings_Split "user:p|w@tcp(db)/app" "|" = param :: more ∧
                Factory.contains "|" param = false.
Proof.
  assert (Factory.mysql ≠ Factory.sqlite) as Hd by (intros Heq; discriminate Heq).
  split; [reflexivity|]. split; [exact Hd|].
  destruct (NewDb_client_server (Sample.env "mysql|user:p|w@tcp(db)/app") "db"
              (Sample.setting "mysql|user:p|w@tcp(db)/app") Factory.mysql
              "user:p|w@tcp(db)/app" [] [] eq_refl eq_refl Hd)
    as (param & more & Hsplit & Hclean & _).
  exists param, more. split; [exact Hsplit|exact Hclean].
Defined.

Lemma NewDb_setting_sources_witness :
  Factory.baseCfg (Sample.env "mysql|dsn") = Some ("app", "sample", "1.0") ∧
  Factory.load_setting (Sample.env "mysql|dsn") "db" []
  = Done (Some (Sample.setting "mysql|dsn")) [].
Proof.
  split; [reflexivity|].
  exact (proj1 (proj2 (proj2
           (proj2 (NewDb_setting_sources (Sample.env "mysql|dsn") "db" [])
              "app" "sample" "1.0" eq_refl)))
           (Sample.setting "mysql|dsn") eq_refl).
Defined.

Lemma CreateList_appends_as_given_witness :
  calm Sample.world [] ∧
  Forall (λ m, Id m ≠ 0 ∧ existsb (has_Id (Id m)) [] = false) [Sample.unset; Sample.dated] ∧
  NoDup (Id <$> [Sample.unset; Sample.dated]) ∧
  ∃ w', CreateList Sample.dao [Sample.unset; Sample.dated] Sample.world = Done None w' ∧
        calm w' ([] ++ [Sample.unset; Sample.dated]).
Proof.
  assert (Forall (λ m, Id m ≠ 0 ∧ existsb (has_Id (Id m)) [] = false)
            [Sample.unset; Sample.dated]) as Hfresh.
  { repeat constructor; intros Hz; discriminate Hz. }
  assert (NoDup (Id <$> [Sample.unset; Sample.dated])) as Hnd.
  { simpl. apply NoDup_cons. split; [|apply NoDup_singleton].
    intros Hin. apply list_elem_of_singleton in Hin. discriminate Hin. }
  split; [exact sample_world_calm|]. split; [exact Hfresh|]. split; [exact Hnd|].
  exact (CreateList_appends_as_given Sample.dao [Sample.unset; Sample.dated] Sample.world []
           sample_world_calm Hfresh Hnd).
Defined.

Lemma NewDao_leaves_table_ready_witness :
  (∀ name, TableName (session Sample.probe_fails) name = name) ∧
  (∃ w1, NewDao open_DB Sample.probe_fails = Done (Some Sample.dao) w1 ∧
         quiet (session w1) = true ∧
         tables (session w1) !! @TypeName DbSimple.t _ = Some [Sample.unset; Sample.dated] ∧
         ∃ w2, NewDao open_DB w1 = Done (Some Sample.dao) w2 ∧
               tables (session w2) = tables (session w1)).
Proof.
  assert (NewDao open_DB Sample.probe_fails
          = Done (Some Sample.dao) (final (NewDao open_DB Sample.probe_fails))) as Hrun.
  { vm_compute. reflexivity. }
  split; [done|]. eexists. split; [exact Hrun|]. split; [reflexivity|].
  destruct (NewDao_leaves_table_ready open_DB Sample.probe_fails Sample.dao _
              (λ name, eq_refl) Hrun) as (_ & Htab & Hagain).
  split; [exact Htab|].
  destruct (Hagain eq_refl) as (w2 & Hrun2 & _ & Hsame).
  exists w2. split; [exact Hrun2|exact Hsame].
Defined.
